(** * Portable-text editing core: Orchestrator and Editable surface

    A shallow embedding of the two React components that make up the
    portable-text editing core:

    - [PortableTextInput] (the object-editing Orchestrator), and
    - [PortableTextEditable] (the editable surface that mirrors the
      Document into the text engine's node list).

    React state is modelled by explicit state passing.  A hook callback
    reads the values captured by the render it was created in, queues
    state updates for the next render, and calls external collaborators
    (the editor facade, the [onFocus] / [onChange] props, the [change$]
    stream); those calls are recorded, in order, in a log. *)

From stdpp Require Import base decidable list strings.
From Stdlib Require Import Lia.

Set Default Proof Using "Type".

(** ** Data model *)

(** [PathSegment = string | number | KeyedSegment | IndexTuple]. *)
Inductive PathSegment : Type :=
  | PropSeg (name : string)
  | IndexSeg (index : nat)
  | KeyedSeg (key : string)
  | TupleSeg (from to : option nat).

Definition Path : Type := list PathSegment.

#[global] Instance PathSegment_eq_dec : EqDecision PathSegment.
Proof. solve_decision. Defined.

(** Modelled from the spec: the type guard [isKeySegment] of the types
    package is not part of the sources; a keyed segment is a segment of
    the shape [{_key: string}], and the guard holds exactly for those. *)
Definition isKeySegment (segment : PathSegment) : bool :=
  match segment with
  | KeyedSeg _ => true
  | _ => false
  end.

(** Reading the [_key] property of a segment: [undefined] unless the
    segment is a keyed one. *)
Definition seg_key (segment : PathSegment) : option string :=
  match segment with
  | KeyedSeg k => Some k
  | _ => None
  end.

(** A child of a text block.  [child_marks = None] stands for a [marks]
    property that is not an array. *)
Record PortableTextChild : Type := mkChild {
  child_type : string;
  child_key : string;
  child_text : option string;
  child_marks : option (list string)
}.

Record MarkDef : Type := mkMarkDef {
  markDef_key : string;
  markDef_type : string
}.

(** A block of the Document.  Optional properties are absent on object
    blocks: [blk_children = None] is a block without a [children]
    array. *)
Record PortableTextBlock : Type := mkBlock {
  blk_type : string;
  blk_key : string;
  blk_style : option string;
  blk_markDefs : option (list MarkDef);
  blk_children : option (list PortableTextChild)
}.

#[global] Instance PortableTextChild_eq_dec : EqDecision PortableTextChild.
Proof. solve_decision. Defined.
#[global] Instance MarkDef_eq_dec : EqDecision MarkDef.
Proof. solve_decision. Defined.
#[global] Instance PortableTextBlock_eq_dec : EqDecision PortableTextBlock.
Proof. solve_decision. Defined.

Record EditorSelectionPoint : Type := mkPoint {
  point_path : Path;
  point_offset : nat
}.

Record EditorSelection : Type := mkSelection {
  sel_focus : EditorSelectionPoint;
  sel_anchor : EditorSelectionPoint
}.

#[global] Instance EditorSelectionPoint_eq_dec : EqDecision EditorSelectionPoint.
Proof. solve_decision. Defined.
#[global] Instance EditorSelection_eq_dec : EqDecision EditorSelection.
Proof. solve_decision. Defined.

(** The selection literal [{focus: {path, offset: 0}, anchor: {path,
    offset: 0}}] that the Orchestrator builds in three places. *)
Definition collapsedAt (path : Path) : EditorSelection :=
  {| sel_focus := mkPoint path 0; sel_anchor := mkPoint path 0 |}.

Inductive ObjectKind : Type := blockObject | inlineObject | annotation.

Record ObjectEditData : Type := mkObjectEditData {
  editorPath : Path;
  formBuilderPath : Path;
  kind : ObjectKind
}.

(** A form-builder patch; only its path is inspected by the core. *)
Record Patch : Type := mkPatch {
  patch_type : string;
  patch_path : Path;
  patch_value : option string
}.

Record PatchEvent : Type := mkPatchEvent { patches : list Patch }.

(** ** The Orchestrator: [PortableTextInput] *)

Module Orchestrator.

(** Calls made to the collaborators of the component. *)
Inductive Call : Type :=
  | PTE_select (sel : EditorSelection)
  | PTE_focus
  | PTE_blur
  | onFocus (path : Path)
  | onChange (event : PatchEvent)
  | patche_next (patch : Patch)
  | onToggleFullscreen.

(** What one render of the component sees: its props and the values
    returned by its hooks. *)
Record Props : Type := mkProps {
  focusPath : option Path;
  hasFocus : bool;
  (** [PortableTextEditor.getValue(editor)] *)
  editorValue : option (list PortableTextBlock);
  (** [usePortableTextEditorSelection()] *)
  selection : option EditorSelection;
  (** [PortableTextEditor.getSelection(editor)] *)
  editorSelection : option EditorSelection;
  (** keys [k] for which a DOM element with [data-pte-key="k"]
      exists *)
  rendered : string -> bool;
  (** keys [k] that do not make a valid selector when they are put,
      unescaped, between the quotes of [[data-pte-key="k"]]; only
      asked about keys that are not plain, see [plainKey] *)
  invalidSelector : string -> bool
}.

(** The component state, together with the macrotasks queued by
    [setTimeout] and the log of calls made so far. *)
Record State : Type := mkState {
  isActive : bool;
  objectEditData : option ObjectEditData;
  initialSelection : option EditorSelection;
  (** key of the element held by the [popoverReferenceElement] ref *)
  popoverReferenceElement : option string;
  timers : list ObjectEditData;
  calls : list Call
}.

Definition initialState : State :=
  {| isActive := false; objectEditData := None; initialSelection := None;
     popoverReferenceElement := None; timers := []; calls := [] |}.

(** A small state-and-exception monad for the bodies of the hooks. *)
Inductive Outcome (A : Type) : Type :=
  | Threw (error : string)
  | Done (a : A) (s : State).
Arguments Threw {A} error.
Arguments Done {A} a s.

Definition M (A : Type) : Type := State -> Outcome A.

Definition ret {A} (a : A) : M A := fun s => Done a s.

Definition bind {A B} (m : M A) (k : A -> M B) : M B :=
  fun s => match m s with
           | Threw e => Threw e
           | Done a s' => k a s'
           end.

#[global] Instance M_ret : MRet M := @ret.
#[global] Instance M_bind : MBind M := fun A B k m => bind m k.

Definition throw {A} (error : string) : M A := fun _ => Threw error.

Definition call (c : Call) : M unit := fun s =>
  Done tt {| isActive := isActive s; objectEditData := objectEditData s;
             initialSelection := initialSelection s;
             popoverReferenceElement := popoverReferenceElement s;
             timers := timers s; calls := calls s ++ [c] |}.

Definition setIsActive (b : bool) : M unit := fun s =>
  Done tt {| isActive := b; objectEditData := objectEditData s;
             initialSelection := initialSelection s;
             popoverReferenceElement := popoverReferenceElement s;
             timers := timers s; calls := calls s |}.

Definition setObjectEditData (d : option ObjectEditData) : M unit := fun s =>
  Done tt {| isActive := isActive s; objectEditData := d;
             initialSelection := initialSelection s;
             popoverReferenceElement := popoverReferenceElement s;
             timers := timers s; calls := calls s |}.

Definition setInitialSelection (sel : option EditorSelection) : M unit := fun s =>
  Done tt {| isActive := isActive s; objectEditData := objectEditData s;
             initialSelection := sel;
             popoverReferenceElement := popoverReferenceElement s;
             timers := timers s; calls := calls s |}.

(** [setTimeout(() => setObjectEditData(d))]: the update is queued and
    runs on a later tick. *)
Definition setTimeout_setObjectEditData (d : ObjectEditData) : M unit := fun s =>
  Done tt {| isActive := isActive s; objectEditData := objectEditData s;
             initialSelection := initialSelection s;
             popoverReferenceElement := popoverReferenceElement s;
             timers := timers s ++ [d]; calls := calls s |}.

(** The template literal [`[data-pte-key="${key}"]`] prints an undefined
    key as the text [undefined]. *)
Definition key_attribute (key : option string) : string :=
  default "undefined" key.

(** The characters that end or escape a quoted string in a selector:
    the double quote (34), the backslash (92), and the line breaks
    (10, 12, 13). *)
Definition breaksSelectorString (c : Ascii.ascii) : bool :=
  let n := Ascii.nat_of_ascii c in
  bool_decide (n = 34) || bool_decide (n = 92)
  || bool_decide (n = 10) || bool_decide (n = 12) || bool_decide (n = 13).

(** A key is plain when none of its characters does that.  Between
    the quotes of [[data-pte-key="..."]] a plain key is the value of a
    well-formed attribute selector. *)
Fixpoint plainKey (key : string) : bool :=
  match key with
  | EmptyString => true
  | String c key' => negb (breaksSelectorString c) && plainKey key'
  end.

(** [document.querySelectorAll(`[data-pte-key="${key}"]`)] throws a
    SyntaxError when the string it is given is not a valid selector.
    The key is not escaped: for a plain key the selector is valid; for
    any other key the DOM decides. *)
Definition querySelectorThrows (p : Props) (key : string) : bool :=
  negb (plainKey key) && invalidSelector p key.

(** [setPopupReferenceElement]: the DOM query may throw; otherwise the
    ref is only written when the query finds an element. *)
Definition setPopupReferenceElement (p : Props) (key : option string) : M unit :=
  fun s =>
    if querySelectorThrows p (key_attribute key)
    then Threw "SyntaxError: not a valid selector"
    else if rendered p (key_attribute key)
    then Done tt {| isActive := isActive s; objectEditData := objectEditData s;
                    initialSelection := initialSelection s;
                    popoverReferenceElement := Some (key_attribute key);
                    timers := timers s; calls := calls s |}
    else Done tt s.

Definition isChild (fp : Path) : bool :=
  bool_decide (fp !! 1 = Some (PropSeg "children")).

Definition isMarkdef (fp : Path) : bool :=
  bool_decide (fp !! 1 = Some (PropSeg "markDefs")).

(** [child => Array.isArray(child.marks) && child.marks.includes(key)] *)
Definition hasMark (key : string) (child : PortableTextChild) : bool :=
  match child_marks child with
  | Some marks => bool_decide (key ∈ marks)
  | None => false
  end.

(** The block of a Document that a key addresses: the first one, should
    keys repeat. *)
Definition blockWithKey (value : list PortableTextBlock) (key : string)
    : option PortableTextBlock :=
  List.find (fun blk => bool_decide (blk_key blk = key)) value.

(** The first child that carries a mark. *)
Definition spanWithMark (children : list PortableTextChild) (mark : string)
    : option PortableTextChild :=
  List.find (hasMark mark) children.

(** The annotation branch of the focus-path effect: the body of
    [if (isMarkdef && isKeySegment(blockSegment))], up to its [return].
    A missing third segment is taken not to be a keyed segment. *)
Definition openAnnotation (p : Props) (fp : Path)
    (blockSegment : PathSegment) : M unit :=
  let block :=
    List.find (fun blk => bool_decide (Some (blk_key blk) = seg_key blockSegment))
              (default [] (editorValue p)) in
  match block, fp !! 2 with
  | Some block, Some markDefSegment =>
      if isKeySegment markDefSegment
      then
        match blk_children block with
        | None => throw "TypeError: block.children is undefined"
        | Some children =>
            match List.find (fun child =>
                               from_option (fun k => hasMark k child) false
                                           (seg_key markDefSegment))
                            children with
            | Some span =>
                let spanPath :=
                  [blockSegment; PropSeg "children"; KeyedSeg (child_key span)] in
                setPopupReferenceElement p (Some (child_key span)) ;;
                setIsActive true ;;
                call (PTE_select (collapsedAt spanPath)) ;;
                setObjectEditData (Some {| editorPath := spanPath;
                                           formBuilderPath := take 3 fp;
                                           kind := annotation |})
            | None => mret tt
            end
        end
      else mret tt
  | _, _ => mret tt
  end.

(** The block branch of the focus-path effect. *)
Definition openBlockOrInline (p : Props) (fp : Path) : M unit :=
  if (isChild fp && bool_decide (3 < length fp))
     || (negb (isChild fp) && bool_decide (1 < length fp))
  then
    let kind0 := if isChild fp then inlineObject else blockObject in
    let path := if isChild fp then take 1 fp ++ take 2 (drop 1 fp)
                else take 1 fp in
    match last path with
    | None => throw "TypeError: lastSemgent is undefined"
    | Some lastSemgent =>
        setPopupReferenceElement p (seg_key lastSemgent) ;;
        setIsActive true ;;
        call (PTE_select (collapsedAt path)) ;;
        setTimeout_setObjectEditData
          {| editorPath := path; formBuilderPath := path; kind := kind0 |}
    end
  else mret tt.

(** The first effect of the component, run when [focusPath] changes:
    it opens the editing interface that the focus path asks for. *)
Definition focusPathEffect (p : Props) : M unit := fun s =>
  match focusPath p, objectEditData s with
  | Some fp, None =>
      match fp !! 0 with
      | Some blockSegment =>
          if isMarkdef fp && isKeySegment blockSegment
          then openAnnotation p fp blockSegment s
          else openBlockOrInline p fp s
      | None => openBlockOrInline p fp s
      end
  | _, _ => Done tt s
  end.

(** One scheduling tick: the callbacks queued by [setTimeout] run, in
    the order they were queued, each setting [objectEditData]. *)
Definition tick : M unit := fun s =>
  Done tt {| isActive := isActive s;
             objectEditData :=
               foldl (fun _ d => Some d) (objectEditData s) (timers s);
             initialSelection := initialSelection s;
             popoverReferenceElement := popoverReferenceElement s;
             timers := []; calls := calls s |}.

(** The second effect: become active whenever the surface has focus. *)
Definition hasFocusEffect (p : Props) : M unit :=
  if hasFocus p then setIsActive true else mret tt.

Definition isCollapsed (sel : EditorSelection) : bool :=
  bool_decide (point_path (sel_focus sel) = point_path (sel_anchor sel))
  && bool_decide (point_offset (sel_focus sel) = point_offset (sel_anchor sel)).

(** The third effect, run when the editor selection changes: it
    reports the selection's focus path to the form builder. *)
Definition selectionEffect (p : Props) : M unit := fun s =>
  let isAnnotationPath :=
    match focusPath p with
    | Some fp => isMarkdef fp
    | None => false
    end in
  match selection p, objectEditData s with
  | Some sel, None =>
      if negb isAnnotationPath
      then
        if isCollapsed sel
           && negb (bool_decide (focusPath p = Some (point_path (sel_focus sel))))
        then call (onFocus (point_path (sel_focus sel))) s
        else Done tt s
      else Done tt s
  | _, _ => Done tt s
  end.

Definition focus : M unit := call PTE_focus.

Definition blur : M unit := call PTE_blur.

Definition handleToggleFullscreen (p : Props) : M unit :=
  setInitialSelection (editorSelection p) ;;
  call onToggleFullscreen ;;
  call PTE_focus.

Definition handleActivate : M unit :=
  setIsActive true ;; focus.

(** Modelled from the spec: [PatchEvent.prefixAll] is not part of the
    sources; prefixing maps a nested-object-local patch into a
    Document-absolute one, by putting the segment in front of the path
    of every patch of the event. *)
Definition prefixAll (segment : PathSegment) (event : PatchEvent) : PatchEvent :=
  {| patches :=
       (fun patch => {| patch_type := patch_type patch;
                        patch_path := segment :: patch_path patch;
                        patch_value := patch_value patch |})
       <$> patches event |}.

(** [xs.forEach(f)] for an effectful [f]. *)
Fixpoint forEach {A} (f : A -> M unit) (xs : list A) : M unit :=
  match xs with
  | [] => mret tt
  | x :: xs' => f x ;; forEach f xs'
  end.

Definition handleFormBuilderEditObjectChange
    (patchEvent : PatchEvent) (path : Path) : M unit :=
  let _patchEvent :=
    foldl (fun event segment => prefixAll segment event)
          patchEvent (reverse path) in
  forEach (fun patch => call (patche_next patch)) (patches _patchEvent) ;;
  call (onChange _patchEvent).

(** [nextPath = None] stands for a missing path. *)
Definition handleEditObjectFormBuilderFocus (nextPath : option Path) : M unit :=
  fun s =>
    match objectEditData s, nextPath with
    | Some _, Some path => call (onFocus path) s
    | _, _ => Done tt s
    end.

Definition handleEditObjectFormBuilderBlur : M unit := mret tt.

(** The [handleClose] closure created by [renderEditObject] for the
    session [data] of the render. *)
Definition handleClose (data : ObjectEditData) : M unit :=
  let editorPath := editorPath data in
  setObjectEditData None ;;
  let sel := collapsedAt editorPath in
  call (onFocus editorPath) ;;
  call (PTE_select sel) ;;
  setInitialSelection (Some sel) ;;
  focus.

(** [renderEditObject]: nothing is rendered without a session;
    otherwise the edit surface is rendered for the session, and of its
    props the model keeps the [onClose] handler. *)
Definition renderEditObject (s : State) : option (ObjectEditData * M unit) :=
  match objectEditData s with
  | None => None
  | Some data => Some (data, handleClose data)
  end.

End Orchestrator.

(** ** The editable surface: [PortableTextEditable] *)

Module Editable.

(** A value of TypeScript type [unknown], as far as the component can
    tell values apart. *)
Inductive JsValue : Type :=
  | js_undefined
  | js_null
  | js_boolean (b : bool)
  | js_number (n : nat)
  | js_string (text : string)
  | js_object
  | js_array (blocks : list PortableTextBlock).

(** JavaScript truthiness: an array, even an empty one, is truthy. *)
Definition truthy (value : JsValue) : bool :=
  match value with
  | js_undefined | js_null => false
  | js_boolean b => b
  | js_number n => negb (bool_decide (n = 0))
  | js_string text => negb (bool_decide (text = ""))
  | js_object | js_array _ => true
  end.

Definition isArray (value : JsValue) : bool :=
  match value with
  | js_array _ => true
  | _ => false
  end.

Definition getValueOrInitialValue (value : JsValue)
    (initialValue : list PortableTextBlock) : list PortableTextBlock :=
  match value with
  | js_array blocks =>
      if truthy value && isArray value && bool_decide (0 < length blocks)
      then blocks
      else initialValue
  | _ => initialValue
  end.

(** The part of [portableTextFeatures] that the placeholder reads: the
    name of the block type and the values of the styles. *)
Record PortableTextFeatures : Type := mkFeatures {
  blockType_name : string;
  styles : list string
}.

(** [placeHolderBlock], for the keys [blockKey] and [spanKey] returned
    by the two calls of [keyGenerator()], in that order.  Reading
    [styles[0].value] of an empty style list throws. *)
Definition placeHolderBlock (features : PortableTextFeatures)
    (blockKey spanKey : string) : option PortableTextBlock :=
  match styles features with
  | [] => None
  | style :: _ =>
      Some {| blk_type := blockType_name features;
              blk_key := blockKey;
              blk_style := Some style;
              blk_markDefs := Some [];
              blk_children :=
                Some [ {| child_type := "span"; child_key := spanKey;
                          child_text := Some ""; child_marks := Some [] |} ] |}
  end.

(** [array.splice(start, deleteCount, ...items)] for a start inside the
    array.  A negative [deleteCount] counts as zero, which is what the
    truncated subtraction of [nat] gives at the call below. *)
Definition splice {A} (start deleteCount : nat) (items : list A)
    (array : list A) : list A :=
  take start array ++ items ++ drop (start + deleteCount) array.

(** [xs.forEach((n, i) => ...)] where the callback updates an
    accumulator; [i] is the index of the first element of [xs]. *)
Fixpoint forEachIndexed {A B} (f : B -> A -> nat -> B) (xs : list A)
    (i : nat) (acc : B) : B :=
  match xs with
  | [] => acc
  | n :: xs' => forEachIndexed f xs' (S i) (f acc n i)
  end.

(** What the paste handler supplied by the caller does. *)
Inductive OnPasteResult : Type :=
  | result_falsy
  | result_error (error : string)
  | result_insert (insert : list PortableTextBlock)
  | result_unexpected.

Inductive Settlement : Type :=
  | fulfilled (result : OnPasteResult)
  | rejected (error : string).

Inductive OnPasteBehaviour : Type :=
  | throws (error : string)
  | returns (result : OnPasteResult)
  | returns_promise (settlement : Settlement).

Section Engine.

(** The nodes of the text engine are objects: two nodes can be deeply
    equal ([isEqual]) without being the same node ([=]). *)
Context {Node : Type}.
Variable isEqual : Node -> Node -> bool.

(** [toSlateValue] belongs to the value mapper, which is not part of
    the sources; it is a parameter of the development, and stands for
    the mapper as it answers during one run of an effect.  Two runs
    may get different nodes for the same blocks: statements about two
    runs take one mapper for each. *)
Variable toSlateValue : list PortableTextBlock -> list Node.

(** The memoised placeholder block of the component. *)
Variable thePlaceHolderBlock : PortableTextBlock.

Inductive Call : Type :=
  | slateEditor_onChange
  | change_next_loading (isLoading : bool)
  | change_next_focus
  | change_next_blur
  | onBeforeInput
  | onPaste
  | event_preventDefault
  | slateEditor_insertData
  | slateEditor_insertFragment (fragment : list Node)
  | console_warn
  | console_error (error : string).

(** The state the component keeps between renders: the children of the
    engine, the composing flag, the time (in ms) at which the debounced
    [setIsComposing(false)] is due, and the calls made so far. *)
Record State : Type := mkState {
  children : list Node;
  isComposing : bool;
  unsetIsComposing_due : option nat;
  calls : list Call
}.

(** The callback of [slateValueFromProps.forEach]. *)
Definition reconcileNode (originalChildren : list Node) (n : Node) (i : nat)
    : list Node :=
  match originalChildren !! i with
  | Some existing =>
      if negb (isEqual n existing)
      then splice i 1 [n] originalChildren
      else originalChildren
  | None => originalChildren ++ [n]
  end.

(** The positional update of the engine's children. *)
Definition reconcile (slateEditor_children slateValueFromProps : list Node)
    : list Node :=
  let originalChildren :=
    forEachIndexed reconcileNode slateValueFromProps 0 slateEditor_children in
  if bool_decide (length slateValueFromProps < length originalChildren)
  then splice (length slateValueFromProps)
              (length slateEditor_children - length slateValueFromProps)
              [] originalChildren
  else originalChildren.

(** The update as the specification words it, position by position:
    a new node that differs from the existing node at its index
    replaces it and one that is deeply equal leaves it alone, new nodes
    past the end of the existing list are appended, and existing nodes
    past the end of the new list are dropped. *)
Fixpoint positionalUpdate (existing new : list Node) : list Node :=
  match new, existing with
  | [], _ => []
  | n :: new', [] => n :: positionalUpdate [] new'
  | n :: new', e :: existing' =>
      (if isEqual n e then e else n) :: positionalUpdate existing' new'
  end.

(** The list handed to the engine for a Document value. *)
Definition slateValueFromProps (value : JsValue) : list Node :=
  toSlateValue (getValueOrInitialValue value [thePlaceHolderBlock]).

(** The effect "Restore value from props", run when the [value] prop
    (or the composing flag) changes. *)
Definition valueEffect (value : JsValue) (s : State) : State :=
  if isComposing s then s
  else
    {| children :=
         if truthy value
         then reconcile (children s) (slateValueFromProps value)
         else slateValueFromProps value;
       isComposing := isComposing s;
       unsetIsComposing_due := unsetIsComposing_due s;
       calls := calls s ++ [slateEditor_onChange] |}.

(** [handleOnBeforeInput] at time [now]: the flag is set and the
    debounced reset is put off until one second from now. *)
Definition handleOnBeforeInput (hasOnBeforeInput : bool) (now : nat)
    (s : State) : State :=
  {| children := children s;
     isComposing := true;
     unsetIsComposing_due := Some (now + 1000);
     calls := calls s ++ (if hasOnBeforeInput then [onBeforeInput] else []) |}.

(** The clock reaches [now]: the debounced callback,
    [setIsComposing(false)], runs if it is due.  This is the callback
    alone; the render that follows it, in which the value effect runs
    again, is [Timeline.resetFires]. *)
Definition timePasses (now : nat) (s : State) : State :=
  match unsetIsComposing_due s with
  | Some due =>
      if bool_decide (due ≤ now)
      then {| children := children s; isComposing := false;
              unsetIsComposing_due := None; calls := calls s |}
      else s
  | None => s
  end.

Inductive Event : Type :=
  | BeforeInput (hasOnBeforeInput : bool) (now : nat)
  | ValueProp (value : JsValue)
  | TimePasses (now : nat).

Definition step (e : Event) (s : State) : State :=
  match e with
  | BeforeInput h now => handleOnBeforeInput h now s
  | ValueProp value => valueEffect value s
  | TimePasses now => timePasses now s
  end.

(** *** Paste *)

(** The course of one paste: calls, and the point at which the result
    of the caller's handler has settled.  The reactions registered with
    [then] and [catch] run after that point and after the synchronous
    rest of [handlePaste]. *)
Inductive Moment : Type :=
  | called (c : Call)
  | result_settled.

(** The [then] callback. *)
Definition onFulfilled (result : OnPasteResult) : list Call * option string :=
  match result with
  | result_falsy => ([change_next_loading true], None)
  | result_error error => ([change_next_loading true], Some error)
  | result_insert insert =>
      ([change_next_loading true; event_preventDefault;
        slateEditor_insertFragment (toSlateValue insert);
        change_next_loading false], None)
  | result_unexpected => ([change_next_loading true; console_warn], None)
  end.

(** The [catch] callback. *)
Definition onRejected (error : string) : list Call :=
  [change_next_loading false; console_error error].

(** The reactions to a settled result: [then], and [catch] when the
    promise was rejected or [then] threw. *)
Definition reactions (settlement : Settlement) : list Call :=
  match settlement with
  | fulfilled result =>
      match onFulfilled result with
      | (cs, None) => cs
      | (cs, Some error) => cs ++ onRejected error
      end
  | rejected error => onRejected error
  end.

(** [resolveOnPasteResultOrError]: the handler's return value, with a
    thrown error returned as a value too.  What remains is either a
    plain value, for which [Promise.resolve] gives a promise that is
    fulfilled from the start, or the handler's own promise. *)
Inductive Resolved : Type :=
  | plain (result : OnPasteResult)
  | promise (settlement : Settlement).

Definition resolveOnPasteResultOrError (behaviour : OnPasteBehaviour)
    : Resolved :=
  match behaviour with
  | throws error => plain (result_error error)
  | returns result => plain result
  | returns_promise settlement => promise settlement
  end.

Definition handlePaste (hasSelection : bool)
    (onPasteProp : option OnPasteBehaviour) : list Moment :=
  if negb hasSelection then []
  else
    match onPasteProp with
    | Some behaviour =>
        match resolveOnPasteResultOrError behaviour with
        | plain result =>
            [called onPaste; result_settled;
             called event_preventDefault; called slateEditor_insertData]
            ++ (called <$> reactions (fulfilled result))
        | promise settlement =>
            [called onPaste;
             called event_preventDefault; called slateEditor_insertData;
             result_settled]
            ++ (called <$> reactions settlement)
        end
    | None => [called event_preventDefault; called slateEditor_insertData]
    end.

End Engine.

Arguments slateEditor_onChange {Node}.
Arguments change_next_loading {Node} isLoading.
Arguments change_next_focus {Node}.
Arguments change_next_blur {Node}.
Arguments onBeforeInput {Node}.
Arguments onPaste {Node}.
Arguments event_preventDefault {Node}.
Arguments slateEditor_insertData {Node}.
Arguments console_warn {Node}.
Arguments console_error {Node} error.
Arguments result_settled {Node}.

End Editable.

(** ** Example inputs *)

Module Examples.
Import Orchestrator.

(** A text block [b1] whose only span carries the annotation [m1]. *)
Definition linkBlock : PortableTextBlock :=
  {| blk_type := "block"; blk_key := "b1"; blk_style := Some "normal";
     blk_markDefs := Some [ {| markDef_key := "m1"; markDef_type := "link" |} ];
     blk_children :=
       Some [ {| child_type := "span"; child_key := "s1";
                 child_text := Some "a link"; child_marks := Some ["m1"] |} ] |}.

(** An object block [b2]. *)
Definition imageBlock : PortableTextBlock :=
  {| blk_type := "image"; blk_key := "b2"; blk_style := None;
     blk_markDefs := None; blk_children := None |}.

Definition document : list PortableTextBlock := [linkBlock; imageBlock].

(** The DOM of the examples finds an element for every key and takes
    no key that is not plain for a valid selector. *)
Definition propsWithFocusPath (fp : Path) : Props :=
  {| focusPath := Some fp; hasFocus := false;
     editorValue := Some document; selection := None;
     editorSelection := None; rendered := fun _ => true;
     invalidSelector := fun _ => true |}.

Definition annotationPath : Path :=
  [KeyedSeg "b1"; PropSeg "markDefs"; KeyedSeg "m1"].

Definition imageSession : ObjectEditData :=
  {| editorPath := [KeyedSeg "b2"]; formBuilderPath := [KeyedSeg "b2"];
     kind := blockObject |}.

(** A state in which the editor of the image block is open. *)
Definition imageOpen : State :=
  {| isActive := false; objectEditData := Some imageSession;
     initialSelection := None; popoverReferenceElement := None;
     timers := []; calls := [] |}.

(** A span whose key holds a double quote: [s], the quote, [1]. *)
Definition quotedSpan : PortableTextChild :=
  {| child_type := "span";
     child_key := String.append "s" (String (Ascii.ascii_of_nat 34) "1");
     child_text := Some "a link"; child_marks := Some ["m1"] |}.

Definition quotedLinkBlock : PortableTextBlock :=
  {| blk_type := "block"; blk_key := "b1"; blk_style := Some "normal";
     blk_markDefs := Some [ {| markDef_key := "m1"; markDef_type := "link" |} ];
     blk_children := Some [quotedSpan] |}.

(** Props over the Document of that block alone. *)
Definition quotedProps (fp : Path) : Props :=
  {| focusPath := Some fp; hasFocus := false;
     editorValue := Some [quotedLinkBlock]; selection := None;
     editorSelection := None; rendered := fun _ => true;
     invalidSelector := fun _ => true |}.

(** Engine nodes for the examples: an object identity next to the
    content; deep equality compares the content only. *)
Definition ExampleNode : Type := nat * string.

Definition exampleIsEqual (n e : ExampleNode) : bool :=
  bool_decide (n.2 = e.2).

(** A value mapper that makes a new node for every block. *)
Definition exampleToSlateValue (blocks : list PortableTextBlock)
    : list ExampleNode :=
  (fun blk => (0, blk_key blk)) <$> blocks.


Definition exampleFeatures : Editable.PortableTextFeatures :=
  {| Editable.blockType_name := "block"; Editable.styles := ["normal"; "h1"] |}.

Definition examplePlaceHolder : PortableTextBlock :=
  {| blk_type := "block"; blk_key := "k1"; blk_style := Some "normal";
     blk_markDefs := Some [];
     blk_children :=
       Some [ {| child_type := "span"; child_key := "k2";
                 child_text := Some ""; child_marks := Some [] |} ] |}.

(** An engine that holds three nodes, the second of which is stale. *)
Definition engineState (composing : bool) : Editable.State (Node := ExampleNode) :=
  {| Editable.children := [(7, "b1"); (8, "old"); (9, "b3")];
     Editable.isComposing := composing;
     Editable.unsetIsComposing_due := if composing then Some 1000 else None;
     Editable.calls := [] |}.

End Examples.

(** ** The component as a whole *)

Module Lifecycle.
Import Orchestrator.

(** The props of a later render, with another focus path. *)
Definition withFocusPath (p : Props) (fp : option Path) : Props :=
  {| focusPath := fp; hasFocus := hasFocus p; editorValue := editorValue p;
     selection := selection p; editorSelection := editorSelection p;
     rendered := rendered p; invalidSelector := invalidSelector p |}.

(** Everything that can run in the component: its three effects, a
    scheduling tick, and the handlers it hands to its children.  The
    close handler is the one of the edit surface rendered for the
    current session, if there is one. *)
Inductive Action : Type :=
  | FocusPathChanged
  | HasFocusChanged
  | SelectionChanged
  | Tick
  | ToggleFullscreen
  | Activate
  | Focus
  | Blur
  | NestedChange (patchEvent : PatchEvent) (path : Path)
  | NestedFocus (nextPath : option Path)
  | NestedBlur
  | Close.

Definition perform (p : Props) (a : Action) : M unit :=
  match a with
  | FocusPathChanged => focusPathEffect p
  | HasFocusChanged => hasFocusEffect p
  | SelectionChanged => selectionEffect p
  | Tick => tick
  | ToggleFullscreen => handleToggleFullscreen p
  | Activate => handleActivate
  | Focus => focus
  | Blur => blur
  | NestedChange patchEvent path => handleFormBuilderEditObjectChange patchEvent path
  | NestedFocus nextPath => handleEditObjectFormBuilderFocus nextPath
  | NestedBlur => handleEditObjectFormBuilderBlur
  | Close => fun s => match renderEditObject s with
                      | Some (_, onClose) => onClose s
                      | None => Done tt s
                      end
  end.

(** The actions that open or close an edit session. *)
Definition opensOrCloses (a : Action) : bool :=
  match a with
  | FocusPathChanged | Tick | Close => true
  | _ => false
  end.

(** A run of the component: at each step the props of the render and
    the action that runs in it. *)
Fixpoint runActions (steps : list (Props * Action)) : M unit :=
  match steps with
  | [] => mret tt
  | (p, a) :: steps' => perform p a ;; runActions steps'
  end.

(** The [readOnly] prop handed to the editor,
    [isActive === false || readOnly], for a [readOnly] prop of type
    [boolean | null] ([None] is [null]). *)
Definition editorReadOnly (s : State) (readOnly : option bool) : option bool :=
  if bool_decide (isActive s = false) then Some true else readOnly.

End Lifecycle.

(** ** The editable surface over time *)

Module Timeline.
Import Editable.

Section Engine.

Context {Node : Type}.
Variable isEqual : Node -> Node -> bool.
Variable toSlateValue : list PortableTextBlock -> list Node.
Variable thePlaceHolderBlock : PortableTextBlock.

(** The events of a list, one after the other. *)
Definition runEvents (es : list Event) (s : State (Node := Node)) : State :=
  foldl (fun s e => step isEqual toSlateValue thePlaceHolderBlock e s) s es.

(** The events of [es] leave a composition going whose debounced reset
    is due at [due]: time never reaches the moment the reset is due,
    and every before-input event puts the reset off to one second
    after it. *)
Fixpoint keepsComposing (due : nat) (es : list Event) : Prop :=
  match es with
  | [] => True
  | TimePasses now :: es' => now < due /\ keepsComposing due es'
  | BeforeInput _ now :: es' => keepsComposing (now + 1000) es'
  | ValueProp _ :: es' => keepsComposing due es'
  end.

(** The clock reaches [now] and the component renders again.  When the
    debounced callback has cleared the composing flag, the value
    effect, which has [isComposing] among its dependencies, runs with
    the Document [value] of that render. *)
Definition resetFires (value : JsValue) (now : nat) (s : State (Node := Node))
    : State :=
  let s' := timePasses now s in
  if isComposing s && negb (isComposing s')
  then valueEffect isEqual toSlateValue thePlaceHolderBlock value s'
  else s'.

(** How the promise that [handlePaste] waits for settles: a plain
    return value, or a thrown error, gives a fulfilled promise, and the
    handler's own promise settles as it does. *)
Definition settledResult (behaviour : OnPasteBehaviour) : Settlement :=
  match resolveOnPasteResultOrError behaviour with
  | plain result => fulfilled result
  | promise settlement => settlement
  end.

(** Recognisers for the moments of a paste. *)
Definition isDefaultInsertion (m : Moment (Node := Node)) : bool :=
  match m with
  | called slateEditor_insertData => true
  | _ => false
  end.

Definition isFragmentInsertion (m : Moment (Node := Node)) : bool :=
  match m with
  | called (slateEditor_insertFragment _) => true
  | _ => false
  end.

Definition isLoadingSignal (m : Moment (Node := Node)) : bool :=
  match m with
  | called (change_next_loading _) => true
  | _ => false
  end.

End Engine.

End Timeline.

(** * Properties of the Orchestrator *)

Module OrchestratorProofs.
Import Orchestrator.

(** Unfolds the monad, so that a hook body computes. *)
Ltac run :=
  unfold mbind, M_bind, bind, mret, M_ret, ret, throw, focus, blur,
    setPopupReferenceElement, setIsActive, call, setObjectEditData,
    setInitialSelection, setTimeout_setObjectEditData, key_attribute;
  simpl.

Lemma find_ext_in {A} (f g : A -> bool) (l : list A) :
  (forall x, f x = g x) -> List.find f l = List.find g l.
Proof.
  intros Hfg. induction l as [|x l IH]; simpl; [done|].
  rewrite Hfg, IH. done.
Qed.

Lemma find_some_of_elem {A} (f : A -> bool) (l : list A) (x : A) :
  x ∈ l -> f x = true ->
  exists y, List.find f l = Some y /\ y ∈ l /\ f y = true.
Proof.
  induction l as [|z l IH]; intros Hin Hfx.
  - by apply not_elem_of_nil in Hin.
  - simpl. destruct (f z) eqn:Hz.
    + exists z. repeat split; [apply list_elem_of_here | done].
    + apply elem_of_cons in Hin as [->|Hin]; [congruence|].
      destruct (IH Hin Hfx) as (y & Hy & Hyl & Hfy).
      exists y. repeat split; [done | by apply list_elem_of_further | done].
Qed.

(** With unique block keys, any block of the value is the one its key
    addresses. *)
Lemma blockWithKey_unique (value : list PortableTextBlock) (blk : PortableTextBlock) :
  NoDup (blk_key <$> value) -> blk ∈ value ->
  blockWithKey value (blk_key blk) = Some blk.
Proof.
  unfold blockWithKey.
  induction value as [|b value IH]; intros Hnd Hin.
  - by apply not_elem_of_nil in Hin.
  - simpl in *. apply NoDup_cons in Hnd as [Hb Hnd].
    apply elem_of_cons in Hin as [->|Hin].
    + by rewrite bool_decide_eq_true_2.
    + rewrite bool_decide_eq_false_2; [by apply IH|].
      intros Heq. apply Hb. rewrite Heq.
      by apply list_elem_of_fmap_2.
Qed.

(** The annotation branch, once the block and the first child with
    the mark are known: everything hinges on the popover lookup. *)
Lemma annotation_focus_path_run
    (p : Props) (s : State) (blockKey markKey : string) (rest : Path)
    (blk : PortableTextBlock) (children : list PortableTextChild)
    (span : PortableTextChild) :
  objectEditData s = None ->
  focusPath p = Some (KeyedSeg blockKey :: PropSeg "markDefs" :: KeyedSeg markKey :: rest) ->
  blockWithKey (default [] (editorValue p)) blockKey = Some blk ->
  blk_children blk = Some children ->
  spanWithMark children markKey = Some span ->
  focusPathEffect p s =
    if querySelectorThrows p (child_key span)
    then Threw "SyntaxError: not a valid selector"
    else
      let spanPath := [KeyedSeg blockKey; PropSeg "children"; KeyedSeg (child_key span)] in
      Done tt {| isActive := true;
                 objectEditData :=
                   Some {| editorPath := spanPath;
                           formBuilderPath :=
                             [KeyedSeg blockKey; PropSeg "markDefs"; KeyedSeg markKey];
                           kind := annotation |};
                 initialSelection := initialSelection s;
                 popoverReferenceElement :=
                   if rendered p (child_key span) then Some (child_key span)
                   else popoverReferenceElement s;
                 timers := timers s;
                 calls := calls s ++ [PTE_select (collapsedAt spanPath)] |}.
Proof.
  intros Hnone Hfp Hblk Hch Hfind.
  unfold focusPathEffect. rewrite Hfp, Hnone. simpl.
  unfold openAnnotation. simpl.
  unfold blockWithKey in Hblk.
  erewrite find_ext_in; [rewrite Hblk|].
  2:{ intros x. simpl. apply bool_decide_ext. split; congruence. }
  simpl. rewrite Hch.
  change (List.find _ children) with (spanWithMark children markKey).
  rewrite Hfind. run.
  destruct (querySelectorThrows p (child_key span)); [done|].
  destruct (rendered p (child_key span)); done.
Qed.

(** X23.  While no object edit session is open, a focus path
    [[{_key: blockKey}, 'markDefs', {_key: markKey}, ...]] for which the
    block of the editor value addressed by [blockKey] has a child whose
    marks include [markKey] makes the Orchestrator active, selects the
    collapsed selection at the path of the first such span, and opens an
    [annotation] session with that span path as [editorPath] and the
    first three segments of the focus path as [formBuilderPath],
    provided the popover lookup for the key of that span does not
    throw, as it does not for a plain key. *)
Theorem annotation_focus_path_opens_annotation
    (p : Props) (s : State) (blockKey markKey : string) (rest : Path)
    (blk : PortableTextBlock) (children : list PortableTextChild)
    (child : PortableTextChild) :
  objectEditData s = None ->
  focusPath p = Some (KeyedSeg blockKey :: PropSeg "markDefs" :: KeyedSeg markKey :: rest) ->
  blockWithKey (default [] (editorValue p)) blockKey = Some blk ->
  blk_children blk = Some children ->
  child ∈ children ->
  hasMark markKey child = true ->
  exists span,
    spanWithMark children markKey = Some span /\
    span ∈ children /\ hasMark markKey span = true /\
    (querySelectorThrows p (child_key span) = false ->
     let spanPath := [KeyedSeg blockKey; PropSeg "children"; KeyedSeg (child_key span)] in
     focusPathEffect p s =
       Done tt {| isActive := true;
                  objectEditData :=
                    Some {| editorPath := spanPath;
                            formBuilderPath :=
                              [KeyedSeg blockKey; PropSeg "markDefs"; KeyedSeg markKey];
                            kind := annotation |};
                  initialSelection := initialSelection s;
                  popoverReferenceElement :=
                    if rendered p (child_key span) then Some (child_key span)
                    else popoverReferenceElement s;
                  timers := timers s;
                  calls := calls s ++ [PTE_select (collapsedAt spanPath)] |}).
Proof.
  intros Hnone Hfp Hblk Hch Hin Hmark.
  destruct (find_some_of_elem (hasMark markKey) children child Hin Hmark)
    as (span & Hfind & Hspan & Hsm).
  exists span. repeat split; try done.
  intros Hvalid.
  rewrite (annotation_focus_path_run p s blockKey markKey rest blk children span)
    by done.
  by rewrite Hvalid.
Qed.

Lemma annotation_focus_path_opens_annotation_witness :
  exists span,
    spanWithMark (default [] (blk_children Examples.linkBlock)) "m1" = Some span /\
    focusPathEffect (Examples.propsWithFocusPath Examples.annotationPath) initialState =
      Done tt {| isActive := true;
                 objectEditData :=
                   Some {| editorPath :=
                             [KeyedSeg "b1"; PropSeg "children"; KeyedSeg (child_key span)];
                           formBuilderPath := Examples.annotationPath;
                           kind := annotation |};
                 initialSelection := None;
                 popoverReferenceElement := Some (child_key span);
                 timers := [];
                 calls := [PTE_select (collapsedAt
                            [KeyedSeg "b1"; PropSeg "children"; KeyedSeg (child_key span)])] |}.
Proof.
  destruct (annotation_focus_path_opens_annotation
              (Examples.propsWithFocusPath Examples.annotationPath) initialState
              "b1" "m1" [] Examples.linkBlock
              (default [] (blk_children Examples.linkBlock))
              {| child_type := "span"; child_key := "s1";
                 child_text := Some "a link"; child_marks := Some ["m1"] |})
    as (span & Hfind & _ & _ & Hrun);
    [reflexivity | reflexivity | reflexivity | reflexivity
    | apply list_elem_of_here | reflexivity |].
  exists span. split; [exact Hfind|].
  injection Hfind as <-. apply Hrun. reflexivity.
Defined.

(** A focus path received while a session is open changes nothing. *)
Lemma focus_path_ignored_while_session_open
    (p : Props) (s : State) (data : ObjectEditData) :
  objectEditData s = Some data -> focusPathEffect p s = Done tt s.
Proof.
  intros Hopen. unfold focusPathEffect. rewrite Hopen.
  by destruct (focusPath p).
Qed.

(** C1, on the code.  With no session open, the annotation focus path
    [[{_key: 'b1'}, 'markDefs', {_key: 'm1'}]] of a block whose only
    span carries the mark [m1] and has a key with a double quote in it:
    the popover lookup throws before the component is activated,
    before anything is selected and before a session is set. *)
Theorem annotation_with_quoted_span_key_throws :
  objectEditData initialState = None /\
  focusPath (Examples.quotedProps Examples.annotationPath)
    = Some [KeyedSeg "b1"; PropSeg "markDefs"; KeyedSeg "m1"] /\
  blockWithKey (default [] (editorValue (Examples.quotedProps Examples.annotationPath))) "b1"
    = Some Examples.quotedLinkBlock /\
  blk_children Examples.quotedLinkBlock = Some [Examples.quotedSpan] /\
  hasMark "m1" Examples.quotedSpan = true /\
  plainKey (child_key Examples.quotedSpan) = false /\
  focusPathEffect (Examples.quotedProps Examples.annotationPath) initialState
    = Threw "SyntaxError: not a valid selector".
Proof. repeat split. Qed.

(** C2, as amended.  While no object edit session is open, a focus path
    of more than one segment that starts with [{_key: blockKey}] and
    whose second segment is neither ['children'] nor ['markDefs']
    selects the collapsed selection at [[{_key: blockKey}]] at once,
    leaving [objectEditData] unset, and after the deferred tick
    [objectEditData] is the [blockObject] session at that path,
    for a block key for which the popover lookup does not throw, as
    it does not for a plain key. *)
Theorem block_focus_path_opens_blockObject
    (p : Props) (s : State) (blockKey : string) (second : PathSegment)
    (rest : Path) :
  objectEditData s = None ->
  focusPath p = Some (KeyedSeg blockKey :: second :: rest) ->
  second <> PropSeg "children" ->
  second <> PropSeg "markDefs" ->
  querySelectorThrows p blockKey = false ->
  let path := [KeyedSeg blockKey] in
  exists s1 s2,
    focusPathEffect p s = Done tt s1 /\
    calls s1 = calls s ++ [PTE_select (collapsedAt path)] /\
    isActive s1 = true /\
    objectEditData s1 = None /\
    tick s1 = Done tt s2 /\
    objectEditData s2 =
      Some {| editorPath := path; formBuilderPath := path; kind := blockObject |} /\
    calls s2 = calls s1.
Proof.
  intros Hnone Hfp Hchild Hmark Hvalid path.
  unfold focusPathEffect. rewrite Hfp, Hnone. simpl.
  assert (isMarkdef (KeyedSeg blockKey :: second :: rest) = false) as ->.
  { unfold isMarkdef. simpl. apply bool_decide_eq_false_2. congruence. }
  simpl. unfold openBlockOrInline.
  assert (isChild (KeyedSeg blockKey :: second :: rest) = false) as ->.
  { unfold isChild. simpl. apply bool_decide_eq_false_2. congruence. }
  simpl. run. rewrite Hvalid.
  destruct (rendered p blockKey);
    (eexists _, _; split; [reflexivity|]; simpl; rewrite Hnone;
     repeat split; first [reflexivity | simpl; rewrite foldl_app; reflexivity]).
Qed.

Lemma block_focus_path_opens_blockObject_witness :
  exists s1 s2,
    focusPathEffect (Examples.propsWithFocusPath [KeyedSeg "b2"; PropSeg "caption"])
                    initialState = Done tt s1 /\
    calls s1 = calls initialState ++ [PTE_select (collapsedAt [KeyedSeg "b2"])] /\
    isActive s1 = true /\
    objectEditData s1 = None /\
    tick s1 = Done tt s2 /\
    objectEditData s2 = Some Examples.imageSession /\
    calls s2 = calls s1.
Proof.
  apply (block_focus_path_opens_blockObject
           (Examples.propsWithFocusPath [KeyedSeg "b2"; PropSeg "caption"])
           initialState "b2" (PropSeg "caption") []);
    [reflexivity | reflexivity | discriminate | discriminate | reflexivity].
Defined.

(** C2 as stated fails: the single-segment focus path [[{_key: 'b2'}]]
    of an object block selects nothing and opens nothing, before or
    after the tick. *)
Lemma single_segment_focus_path_opens_nothing :
  blockWithKey (default [] (editorValue (Examples.propsWithFocusPath [KeyedSeg "b2"]))) "b2"
    = Some Examples.imageBlock /\
  blk_type Examples.imageBlock <> "block" /\
  objectEditData initialState = None /\
  focusPathEffect (Examples.propsWithFocusPath [KeyedSeg "b2"]) initialState
    = Done tt initialState /\
  tick initialState = Done tt initialState /\
  calls initialState = [] /\
  ~ (exists s1 s2,
       focusPathEffect (Examples.propsWithFocusPath [KeyedSeg "b2"]) initialState
         = Done tt s1 /\
       tick s1 = Done tt s2 /\
       exists data, objectEditData s2 = Some data /\ kind data = blockObject).
Proof.
  repeat split; try discriminate.
  intros (s1 & s2 & Hrun & Htick & data & Hdata & _).
  vm_compute in Hrun. injection Hrun as <-.
  vm_compute in Htick. injection Htick as <-.
  discriminate Hdata.
Qed.

Lemma forEach_call_patches (ps : list Patch) (s : State) :
  forEach (fun patch => call (patche_next patch)) ps s =
    Done tt {| isActive := isActive s; objectEditData := objectEditData s;
               initialSelection := initialSelection s;
               popoverReferenceElement := popoverReferenceElement s;
               timers := timers s;
               calls := calls s ++ (patche_next <$> ps) |}.
Proof.
  revert s. induction ps as [|patch ps IH]; intros s; simpl.
  - rewrite app_nil_r. by destruct s.
  - run. rewrite IH. simpl. by rewrite <- app_assoc.
Qed.

Lemma prefixAll_reverse (path : Path) (event : PatchEvent) :
  foldl (fun ev segment => prefixAll segment ev) event (reverse path) =
    {| patches :=
         (fun patch => {| patch_type := patch_type patch;
                          patch_path := path ++ patch_path patch;
                          patch_value := patch_value patch |})
         <$> patches event |}.
Proof.
  induction path as [|segment path IH].
  - simpl. destruct event as [ps]. f_equal. simpl.
    induction ps as [|[ty pa va] ps IHps]; simpl; [done|]. by f_equal.
  - rewrite reverse_cons, foldl_app. simpl. rewrite IH.
    unfold prefixAll. simpl. f_equal.
    rewrite <- list_fmap_compose. by apply list_fmap_ext.
Qed.

(** C7.  The change proxy prefixes the event with each segment of the
    object path, taken in reverse order; every patch is thereby
    forwarded with the object path, in its original order, put in
    front of its local path.  Each forwarded patch goes to the patch
    stream and the event goes to [onChange] once.  In particular a
    [set] patch with the empty path, from an object opened at
    [[{_key: blockKey}, 'children', {_key: childKey}]], is forwarded
    with exactly that path. *)
Theorem change_proxy_prefixes_object_path
    (patchEvent : PatchEvent) (path : Path) (s : State) :
  let forwarded :=
    {| patches :=
         (fun patch => {| patch_type := patch_type patch;
                          patch_path := path ++ patch_path patch;
                          patch_value := patch_value patch |})
         <$> patches patchEvent |} in
  foldl (fun event segment => prefixAll segment event) patchEvent (reverse path)
    = forwarded /\
  handleFormBuilderEditObjectChange patchEvent path s =
    Done tt {| isActive := isActive s; objectEditData := objectEditData s;
               initialSelection := initialSelection s;
               popoverReferenceElement := popoverReferenceElement s;
               timers := timers s;
               calls := calls s ++ (patche_next <$> patches forwarded)
                                ++ [onChange forwarded] |} /\
  (forall blockKey childKey X,
     path = [KeyedSeg blockKey; PropSeg "children"; KeyedSeg childKey] ->
     patches patchEvent =
       [ {| patch_type := "set"; patch_path := []; patch_value := X |} ] ->
     patches forwarded =
       [ {| patch_type := "set";
            patch_path := [KeyedSeg blockKey; PropSeg "children"; KeyedSeg childKey];
            patch_value := X |} ]).
Proof.
  intros forwarded. split; [apply prefixAll_reverse|]. split.
  - unfold handleFormBuilderEditObjectChange.
    rewrite prefixAll_reverse. fold forwarded.
    unfold mbind, M_bind, bind. rewrite forEach_call_patches.
    unfold call. simpl. by rewrite <- app_assoc.
  - intros blockKey childKey X -> Hps. subst forwarded. simpl.
    rewrite Hps. reflexivity.
Qed.

(** The remaining transition of the focus-path effect: a path into a
    child of a block, longer than three segments, opens an
    [inlineObject] session at the child after the tick. *)
Lemma child_focus_path_opens_inlineObject
    (p : Props) (s : State) (blockSegment childSegment next : PathSegment)
    (rest : Path) :
  objectEditData s = None ->
  focusPath p
    = Some (blockSegment :: PropSeg "children" :: childSegment :: next :: rest) ->
  querySelectorThrows p (key_attribute (seg_key childSegment)) = false ->
  let path := [blockSegment; PropSeg "children"; childSegment] in
  exists s1 s2,
    focusPathEffect p s = Done tt s1 /\
    calls s1 = calls s ++ [PTE_select (collapsedAt path)] /\
    objectEditData s1 = None /\
    tick s1 = Done tt s2 /\
    objectEditData s2 =
      Some {| editorPath := path; formBuilderPath := path; kind := inlineObject |}.
Proof.
  intros Hnone Hfp Hvalid path.
  unfold focusPathEffect. rewrite Hfp, Hnone.
  change (isMarkdef _) with false. cbv beta iota.
  change (false && _) with false. cbv beta iota.
  unfold openBlockOrInline.
  change (isChild _) with true. simpl. run.
  unfold key_attribute in Hvalid. rewrite Hvalid.
  destruct (rendered p _);
    (eexists _, _; split; [reflexivity|]; simpl; rewrite Hnone;
     repeat split; first [reflexivity | simpl; rewrite foldl_app; reflexivity]).
Qed.

(** C6.  For every open session the close action of the rendered edit
    surface, whenever it runs, clears [objectEditData], emits exactly
    one external focus event, with the session's [editorPath], selects
    the collapsed selection at [editorPath] in the engine, and records
    that selection as the initial selection of the next render. *)
Theorem close_clears_session_and_refocuses (s : State) (data : ObjectEditData) :
  objectEditData s = Some data ->
  exists onClose,
    renderEditObject s = Some (data, onClose) /\
    forall s0, exists s',
      onClose s0 = Done tt s' /\
      objectEditData s' = None /\
      initialSelection s' = Some (collapsedAt (editorPath data)) /\
      calls s' = calls s0 ++ [onFocus (editorPath data);
                              PTE_select (collapsedAt (editorPath data));
                              PTE_focus] /\
      isActive s' = isActive s0 /\ timers s' = timers s0.
Proof.
  intros Hopen. exists (handleClose data). split.
  - unfold renderEditObject. by rewrite Hopen.
  - intros s0. eexists. split; [unfold handleClose; run; reflexivity|].
    simpl. repeat split. by rewrite <- !app_assoc.
Qed.

Lemma close_clears_session_and_refocuses_witness :
  exists onClose,
    renderEditObject Examples.imageOpen = Some (Examples.imageSession, onClose) /\
    forall s0, exists s',
      onClose s0 = Done tt s' /\
      objectEditData s' = None /\
      initialSelection s' = Some (collapsedAt [KeyedSeg "b2"]) /\
      calls s' = calls s0 ++ [onFocus [KeyedSeg "b2"];
                              PTE_select (collapsedAt [KeyedSeg "b2"]);
                              PTE_focus] /\
      isActive s' = isActive s0 /\ timers s' = timers s0.
Proof.
  apply (close_clears_session_and_refocuses Examples.imageOpen Examples.imageSession).
  reflexivity.
Defined.

(** C10.  A selection change emits no external focus event when the
    selection is not collapsed, when an object edit session is open,
    when the current focus path addresses a [markDefs] entry, or when
    the focus path of the selection already is the current focus
    path: the effect then leaves state and call log as they are. *)
Theorem selection_change_emits_no_focus
    (p : Props) (s : State) (sel : EditorSelection) :
  selection p = Some sel ->
  (point_path (sel_anchor sel) <> point_path (sel_focus sel)
   \/ point_offset (sel_anchor sel) <> point_offset (sel_focus sel))
  \/ objectEditData s <> None
  \/ (exists fp, focusPath p = Some fp /\ fp !! 1 = Some (PropSeg "markDefs"))
  \/ focusPath p = Some (point_path (sel_focus sel)) ->
  selectionEffect p s = Done tt s.
Proof.
  intros Hsel Hcases. unfold selectionEffect. rewrite Hsel.
  destruct (objectEditData s) as [data|] eqn:Hdata; [done|].
  destruct Hcases as [Hnc | [Hopen | [(fp & Hfp & Hmd) | Hsame]]].
  - assert (isCollapsed sel = false) as ->; [|by destruct (negb _)].
    unfold isCollapsed. apply andb_false_iff.
    destruct Hnc as [Hpath | Hoff]; [left | right];
      apply bool_decide_eq_false_2; congruence.
  - done.
  - rewrite Hfp. unfold isMarkdef. by rewrite bool_decide_eq_true_2.
  - rewrite (bool_decide_eq_true_2 _ Hsame). simpl.
    rewrite andb_false_r. by destruct (negb _).
Qed.

Lemma selection_change_emits_no_focus_witness :
  selectionEffect
    {| focusPath := Some [KeyedSeg "b1"; PropSeg "children"; KeyedSeg "s1"];
       hasFocus := true; editorValue := Some Examples.document;
       selection := Some {| sel_focus := mkPoint [KeyedSeg "b1"; PropSeg "children"; KeyedSeg "s1"] 4;
                            sel_anchor := mkPoint [KeyedSeg "b1"; PropSeg "children"; KeyedSeg "s1"] 1 |};
       editorSelection := None; rendered := fun _ => true;
       invalidSelector := fun _ => true |}
    initialState
  = Done tt initialState.
Proof.
  apply (selection_change_emits_no_focus _ initialState
           {| sel_focus := mkPoint [KeyedSeg "b1"; PropSeg "children"; KeyedSeg "s1"] 4;
              sel_anchor := mkPoint [KeyedSeg "b1"; PropSeg "children"; KeyedSeg "s1"] 1 |});
    [reflexivity | left; right; simpl; lia].
Defined.

End OrchestratorProofs.

(** * Properties of the editable surface *)

Module EditableProofs.
Import Editable.

Section Engine.

Context {Node : Type}.
Variable isEqual : Node -> Node -> bool.
Variable toSlateValue : list PortableTextBlock -> list Node.
Variable thePlaceHolderBlock : PortableTextBlock.

Lemma positionalUpdate_length (existing new : list Node) :
  length (positionalUpdate isEqual existing new) = length new.
Proof.
  revert existing. induction new as [|n new IH]; intros [|e existing];
    simpl; auto.
Qed.

Lemma positionalUpdate_lookup (existing new : list Node) (i : nat) (n : Node) :
  new !! i = Some n ->
  positionalUpdate isEqual existing new !! i =
    Some match existing !! i with
         | Some e => if isEqual n e then e else n
         | None => n
         end.
Proof.
  revert existing i. induction new as [|m new IH]; intros existing i Hi.
  - done.
  - destruct i as [|i]; simpl in Hi.
    + injection Hi as ->. by destruct existing.
    + destruct existing as [|e existing]; simpl.
      * rewrite (IH [] i Hi). done.
      * apply IH, Hi.
Qed.

(** The loop of the effect, started at the index [length done] with
    [done] already passed: the rest is updated position by position and
    what lies past the new list is still there. *)
Lemma forEachIndexed_reconcileNode (new done rest : list Node) :
  forEachIndexed (reconcileNode isEqual) new (length done) (done ++ rest) =
    done ++ positionalUpdate isEqual rest new ++ drop (length new) rest.
Proof.
  revert done rest. induction new as [|n new IH]; intros done rest.
  - simpl. by rewrite drop_0.
  - simpl. unfold reconcileNode at 2.
    rewrite lookup_app_r, Nat.sub_diag by lia.
    destruct rest as [|e rest]; simpl.
    + rewrite app_nil_r.
      replace (S (length done)) with (length (done ++ [n]))
        by (rewrite length_app; simpl; lia).
      rewrite <- (app_nil_r (done ++ [n])) at 2.
      rewrite IH. simpl. rewrite drop_nil, <- app_assoc. done.
    + assert (forEachIndexed (reconcileNode isEqual) new (S (length done))
                (done ++ (if isEqual n e then e else n) :: rest)
              = done ++ (if isEqual n e then e else n)
                     :: positionalUpdate isEqual rest new
                     ++ drop (length new) rest) as Hnext.
      { replace (S (length done))
          with (length (done ++ [if isEqual n e then e else n]))
          by (rewrite length_app; simpl; lia).
        rewrite (cons_middle _ done rest), app_assoc, IH.
        by rewrite <- app_assoc. }
      destruct (isEqual n e); simpl; [exact Hnext|].
      unfold splice. rewrite take_app_length.
      rewrite drop_app_ge by lia.
      replace (length done + 1 - length done) with 1 by lia.
      exact Hnext.
Qed.

(** The code refines the update of the specification. *)
Lemma reconcile_positionalUpdate (existing new : list Node) :
  reconcile isEqual existing new = positionalUpdate isEqual existing new.
Proof.
  unfold reconcile.
  pose proof (forEachIndexed_reconcileNode new [] existing) as Hloop.
  simpl in Hloop. rewrite Hloop.
  pose proof (positionalUpdate_length existing new) as Hlen.
  case_bool_decide as Hlt.
  - unfold splice. simpl.
    rewrite take_app_length' by done.
    rewrite drop_app_ge by lia.
    rewrite drop_drop, drop_ge, app_nil_r; [done|].
    rewrite length_app, length_drop in Hlt. lia.
  - rewrite length_app, length_drop in Hlt.
    rewrite (drop_ge existing) by lia. by rewrite app_nil_r.
Qed.

(** A pass over children that are already deeply equal to the new
    nodes, position by position, leaves every node where it is. *)
Lemma positionalUpdate_stable (existing new : list Node) :
  Forall2 (fun e n => isEqual n e = true) existing new ->
  positionalUpdate isEqual existing new = existing.
Proof.
  induction 1 as [|e n existing new Heq _ IH]; simpl; [done|].
  by rewrite Heq, IH.
Qed.

Lemma positionalUpdate_equal (existing new : list Node) :
  (forall n, isEqual n n = true) ->
  Forall2 (fun e n => isEqual n e = true)
          (positionalUpdate isEqual existing new) new.
Proof.
  intros Hrefl. revert existing.
  induction new as [|n new IH]; intros existing; simpl; [constructor|].
  destruct existing as [|e existing].
  - constructor; [apply Hrefl | apply IH].
  - constructor; [|apply IH].
    destruct (isEqual n e) eqn:Heq; [exact Heq | apply Hrefl].
Qed.


(** C3.  Outside a composition the update of the engine's children from
    a Document value is positional: the result has the length of the
    mapped list (old children past it are dropped); a mapped node that
    is deeply unequal to the existing node at its index stands at that
    index; a mapped node past the end of the old children stands at its
    index, appended; and, for a truthy value, an existing node that is
    deeply equal to the mapped node at its index stays. *)
Theorem value_update_is_positional (value : JsValue) (s : State (Node := Node)) :
  isComposing s = false ->
  let new := slateValueFromProps toSlateValue thePlaceHolderBlock value in
  let updated := children (valueEffect isEqual toSlateValue thePlaceHolderBlock value s) in
  length updated = length new /\
  (forall i n e, new !! i = Some n -> children s !! i = Some e ->
                 isEqual n e = false -> updated !! i = Some n) /\
  (forall i n, new !! i = Some n -> children s !! i = None ->
               updated !! i = Some n) /\
  (truthy value = true ->
     updated = positionalUpdate isEqual (children s) new /\
     forall i n e, new !! i = Some n -> children s !! i = Some e ->
                   isEqual n e = true -> updated !! i = Some e).
Proof.
  intros Hcomp new updated. subst updated. unfold valueEffect.
  rewrite Hcomp. simpl. fold new.
  destruct (truthy value).
  - rewrite reconcile_positionalUpdate. repeat split.
    + apply positionalUpdate_length.
    + intros i n e Hn He Hneq.
      rewrite (positionalUpdate_lookup _ _ _ _ Hn), He, Hneq. done.
    + intros i n Hn He.
      rewrite (positionalUpdate_lookup _ _ _ _ Hn), He. done.
    + intros i n e Hn He Heq.
      rewrite (positionalUpdate_lookup _ _ _ _ Hn), He, Heq. done.
  - repeat split; try done. 
Qed.

(** C4.  While the composing flag is set, a change of the Document prop
    leaves the engine's children, and the rest of the state, as they
    are.  The flag is set by a before-input event, which also puts the
    debounced reset off to one second later, and among the events of
    the component only the passing of time up to that moment clears
    it. *)
Theorem composing_blocks_value_update (value : JsValue) (s : State (Node := Node)) :
  isComposing s = true ->
  children (valueEffect isEqual toSlateValue thePlaceHolderBlock value s) = children s /\
  valueEffect isEqual toSlateValue thePlaceHolderBlock value s = s /\
  (forall hasOnBeforeInput now,
     isComposing (handleOnBeforeInput hasOnBeforeInput now s) = true /\
     unsetIsComposing_due (handleOnBeforeInput hasOnBeforeInput now s)
       = Some (now + 1000)) /\
  (forall e,
     isComposing (step isEqual toSlateValue thePlaceHolderBlock e s) = false ->
     exists now due, e = TimePasses now /\ unsetIsComposing_due s = Some due
                     /\ due <= now).
Proof.
  intros Hcomp. unfold valueEffect. rewrite Hcomp.
  repeat split.
  intros [h now | v | now]; simpl.
  - discriminate.
  - unfold valueEffect. rewrite Hcomp. congruence.
  - unfold timePasses. destruct (unsetIsComposing_due s) as [due|]; [|congruence].
    case_bool_decide; [|congruence]. intros _. by exists now, due.
Qed.



End Engine.

Lemma value_update_is_positional_witness :
  children (valueEffect Examples.exampleIsEqual Examples.exampleToSlateValue
              Examples.examplePlaceHolder (js_array [Examples.linkBlock; Examples.imageBlock])
              (Examples.engineState false))
    = [(7, "b1"); (0, "b2")].
Proof.
  destruct (value_update_is_positional Examples.exampleIsEqual
              Examples.exampleToSlateValue Examples.examplePlaceHolder
              (js_array [Examples.linkBlock; Examples.imageBlock])
              (Examples.engineState false) eq_refl)
    as (_ & _ & _ & Htruthy).
  destruct (Htruthy eq_refl) as [-> _]. reflexivity.
Defined.

Lemma composing_blocks_value_update_witness :
  children (valueEffect Examples.exampleIsEqual Examples.exampleToSlateValue
              Examples.examplePlaceHolder (js_array [Examples.linkBlock])
              (Examples.engineState true))
    = [(7, "b1"); (8, "old"); (9, "b3")].
Proof.
  destruct (composing_blocks_value_update Examples.exampleIsEqual
              Examples.exampleToSlateValue Examples.examplePlaceHolder
              (js_array [Examples.linkBlock]) (Examples.engineState true) eq_refl)
    as (-> & _). reflexivity.
Defined.



(** C9.  For a Document value that is undefined, not an array, or an
    empty array, the blocks mapped into the engine are the placeholder
    alone: a block of the text block type whose children are exactly
    one span with the empty text and no marks. *)
Theorem empty_value_maps_placeholder
    (features : PortableTextFeatures) (blockKey spanKey : string)
    (placeHolder : PortableTextBlock) (value : JsValue) :
  placeHolderBlock features blockKey spanKey = Some placeHolder ->
  value = js_undefined \/ isArray value = false \/ value = js_array [] ->
  getValueOrInitialValue value [placeHolder] = [placeHolder] /\
  (forall (Node : Type) (toSlateValue : list PortableTextBlock -> list Node),
     slateValueFromProps toSlateValue placeHolder value = toSlateValue [placeHolder]) /\
  blk_type placeHolder = blockType_name features /\
  blk_markDefs placeHolder = Some [] /\
  blk_children placeHolder =
    Some [ {| child_type := "span"; child_key := spanKey;
              child_text := Some ""; child_marks := Some [] |} ].
Proof.
  intros Hph Hvalue.
  assert (getValueOrInitialValue value [placeHolder] = [placeHolder]) as Hget.
  { destruct Hvalue as [-> | [Hna | ->]]; [done | | done].
    destruct value; try done. }
  split; [exact Hget|]. split.
  { intros Node toSlateValue. unfold slateValueFromProps. by rewrite Hget. }
  unfold placeHolderBlock in Hph.
  destruct (styles features) as [|style rest]; [discriminate|].
  injection Hph as <-. done.
Qed.

Lemma empty_value_maps_placeholder_witness :
  getValueOrInitialValue (js_array []) [Examples.examplePlaceHolder]
    = [Examples.examplePlaceHolder].
Proof.
  apply (empty_value_maps_placeholder Examples.exampleFeatures "k1" "k2"
           Examples.examplePlaceHolder (js_array []));
    [reflexivity | right; right; reflexivity].
Defined.

(** Membership in an explicit list of moments. *)
Ltac is_in := repeat first [apply list_elem_of_here | apply list_elem_of_further].
Ltac not_in Hin :=
  repeat (apply elem_of_cons in Hin as [Hin|Hin]; [discriminate Hin|]);
  by apply not_elem_of_nil in Hin.

(** Whatever the paste handler does, no loading signal goes out before
    its result has settled, and the default insertion of the clipboard
    data is made without waiting for any reaction. *)
Lemma no_loading_before_result_settled
    {Node : Type} (toSlateValue : list PortableTextBlock -> list Node)
    (behaviour : OnPasteBehaviour) :
  exists before after,
    handlePaste toSlateValue true (Some behaviour)
      = before ++ result_settled :: after /\
    (forall isLoading, called (change_next_loading isLoading) ∉ before) /\
    (result_settled ∉ after) /\
    (called slateEditor_insertData
       ∈ handlePaste toSlateValue true (Some behaviour)).
Proof.
  assert (forall cs : list (Call (Node := Node)),
            result_settled ∉ (called <$> cs)) as Hcalled.
  { intros cs Hin. apply list_elem_of_fmap in Hin as (c & Hc & _). discriminate. }
  destruct behaviour as [error | result | settlement]; simpl.
  - exists [called onPaste],
      ([called event_preventDefault; called slateEditor_insertData]
       ++ (called <$> reactions toSlateValue (fulfilled (result_error error)))).
    repeat split.
    + intros isLoading Hin. not_in Hin.
    + intros Hin. apply elem_of_app in Hin as [Hin | Hin];
        [not_in Hin | by apply Hcalled in Hin].
    + is_in.
  - exists [called onPaste],
      ([called event_preventDefault; called slateEditor_insertData]
       ++ (called <$> reactions toSlateValue (fulfilled result))).
    repeat split.
    + intros isLoading Hin. not_in Hin.
    + intros Hin. apply elem_of_app in Hin as [Hin | Hin];
        [not_in Hin | by apply Hcalled in Hin].
    + is_in.
  - exists [called onPaste; called event_preventDefault; called slateEditor_insertData],
      (called <$> reactions toSlateValue settlement).
    repeat split.
    + intros isLoading Hin. not_in Hin.
    + apply Hcalled.
    + is_in.
Qed.

(** C8, on the code.  A paste handler that returns nothing: the result
    has settled and the clipboard data has been inserted by default
    before the loading signal with [isLoading = true] goes out, and no
    signal with [isLoading = false] follows it. *)
Theorem paste_without_result_leaves_loading
    {Node : Type} (toSlateValue : list PortableTextBlock -> list Node) :
  handlePaste toSlateValue true (Some (returns result_falsy))
    = [called onPaste; result_settled;
       called event_preventDefault; called slateEditor_insertData;
       called (change_next_loading true)] /\
  (called (change_next_loading false)
     ∉ handlePaste toSlateValue true (Some (returns result_falsy))).
Proof.
  split; [reflexivity|]. simpl. intros Hin. not_in Hin.
Qed.

(** A handler that throws: the error is logged after the default
    insertion, between a loading signal and its reset. *)
Lemma paste_handler_throws
    {Node : Type} (toSlateValue : list PortableTextBlock -> list Node)
    (error : string) :
  handlePaste toSlateValue true (Some (throws error))
    = [called onPaste; result_settled;
       called event_preventDefault; called slateEditor_insertData;
       called (change_next_loading true); called (change_next_loading false);
       called (console_error error)].
Proof. reflexivity. Qed.

(** A handler whose promise is rejected: the reset goes out without a
    loading signal before it. *)
Lemma paste_handler_rejects
    {Node : Type} (toSlateValue : list PortableTextBlock -> list Node)
    (error : string) :
  handlePaste toSlateValue true (Some (returns_promise (rejected error)))
    = [called onPaste;
       called event_preventDefault; called slateEditor_insertData;
       result_settled;
       called (change_next_loading false); called (console_error error)].
Proof. reflexivity. Qed.

(** Without a selection the paste is ignored, and without a handler the
    clipboard data is inserted by default. *)
Lemma paste_without_handler
    {Node : Type} (toSlateValue : list PortableTextBlock -> list Node) :
  handlePaste toSlateValue false None = [] /\
  handlePaste toSlateValue true None
    = [called event_preventDefault; called slateEditor_insertData].
Proof. split; reflexivity. Qed.

End EditableProofs.

(** * Further properties of the Orchestrator *)

Module OrchestratorMore.
Import Orchestrator Lifecycle OrchestratorProofs.

(** The annotation branch, with its two searches written as
    [blockWithKey] and [spanWithMark]. *)
Lemma openAnnotation_unfold (p : Props) (fp : Path) (blockKey : string) (s : State) :
  openAnnotation p fp (KeyedSeg blockKey) s =
    match blockWithKey (default [] (editorValue p)) blockKey, fp !! 2 with
    | Some blk, Some (KeyedSeg markKey) =>
        match blk_children blk with
        | None => Threw "TypeError: block.children is undefined"
        | Some children =>
            match spanWithMark children markKey with
            | Some span =>
                if querySelectorThrows p (child_key span)
                then Threw "SyntaxError: not a valid selector"
                else
                let spanPath :=
                  [KeyedSeg blockKey; PropSeg "children"; KeyedSeg (child_key span)] in
                Done tt {| isActive := true;
                           objectEditData :=
                             Some {| editorPath := spanPath;
                                     formBuilderPath := take 3 fp;
                                     kind := annotation |};
                           initialSelection := initialSelection s;
                           popoverReferenceElement :=
                             if rendered p (child_key span) then Some (child_key span)
                             else popoverReferenceElement s;
                           timers := timers s;
                           calls := calls s ++ [PTE_select (collapsedAt spanPath)] |}
            | None => Done tt s
            end
        end
    | _, _ => Done tt s
    end.
Proof.
  unfold openAnnotation, blockWithKey, spanWithMark. simpl.
  rewrite (find_ext_in _ (fun blk => bool_decide (blk_key blk = blockKey))).
  2:{ intros blk. simpl. apply bool_decide_ext. split; congruence. }
  destruct (List.find _ (default [] (editorValue p))) as [blk|]; [|done].
  destruct (fp !! 2) as [[name | index | markKey | from to]|]; try done.
  simpl. destruct (blk_children blk) as [children|]; [|done].
  change (List.find _ children) with (List.find (hasMark markKey) children).
  destruct (List.find (hasMark markKey) children) as [span|]; [|done].
  run. destruct (querySelectorThrows p (child_key span)); [done|].
  destruct (rendered p (child_key span)); done.
Qed.

Lemma take_1_take_2 (fp : Path) :
  3 <= length fp -> take 1 fp ++ take 2 (drop 1 fp) = take 3 fp.
Proof.
  destruct fp as [|a [|b [|c rest]]]; simpl; intros; (lia || done).
Qed.

(** The block branch either does nothing, or looks up the popover
    anchor of the object and, unless that throws, queues the deferred
    opening of a block or inline object. *)
Lemma openBlockOrInline_outcome (p : Props) (fp : Path) (s : State) :
  ((isChild fp = true /\ length fp <= 3 \/ isChild fp = false /\ length fp <= 1)
   /\ openBlockOrInline p fp s = Done tt s)
  \/ exists path k lastSegment,
       (isChild fp = true /\ 3 < length fp /\ path = take 3 fp /\ k = inlineObject
        \/ isChild fp = false /\ 1 < length fp /\ path = take 1 fp /\ k = blockObject)
       /\ (if isChild fp then fp !! 2 else fp !! 0) = Some lastSegment
       /\ openBlockOrInline p fp s =
            if querySelectorThrows p (key_attribute (seg_key lastSegment))
            then Threw "SyntaxError: not a valid selector"
            else
            Done tt {| isActive := true;
                       objectEditData := objectEditData s;
                       initialSelection := initialSelection s;
                       popoverReferenceElement :=
                         if rendered p (key_attribute (seg_key lastSegment))
                         then Some (key_attribute (seg_key lastSegment))
                         else popoverReferenceElement s;
                       timers := timers s ++
                         [ {| editorPath := path; formBuilderPath := path; kind := k |} ];
                       calls := calls s ++ [PTE_select (collapsedAt path)] |}.
Proof.
  unfold openBlockOrInline.
  destruct (isChild fp) eqn:Hchild; simpl.
  - case_bool_decide as Hlen; simpl.
    + right. rewrite take_1_take_2 by lia.
      destruct fp as [|a [|b [|c [|d rest]]]]; simpl in Hlen; try lia.
      exists [a; b; c], inlineObject, c. split; [left; simpl; repeat split; lia|].
      split; [done|]. simpl. run.
      destruct (querySelectorThrows p _); [done|].
      destruct (rendered p _); done.
    + left. split; [left; split; [done | lia] | done].
  - case_bool_decide as Hlen; simpl.
    + right.
      destruct fp as [|a [|b rest]]; simpl in Hlen; try lia.
      exists [a], blockObject, a. split; [right; simpl; repeat split; lia|].
      split; [done|]. simpl. run.
      destruct (querySelectorThrows p _); [done|].
      destruct (rendered p _); done.
    + left. split; [right; split; [done | lia] | done].
Qed.

(** Which branch of the effect a focus path takes. *)
Lemma focusPathEffect_branch (p : Props) (s : State) (fp : Path) :
  focusPath p = Some fp -> objectEditData s = None ->
  focusPathEffect p s =
    match fp !! 0 with
    | Some (KeyedSeg blockKey) =>
        if isMarkdef fp then openAnnotation p fp (KeyedSeg blockKey) s
        else openBlockOrInline p fp s
    | _ => openBlockOrInline p fp s
    end.
Proof.
  intros Hfp Hnone. unfold focusPathEffect. rewrite Hfp, Hnone.
  destruct (fp !! 0) as [[name | index | blockKey | from to]|];
    destruct (isMarkdef fp); reflexivity.
Qed.

(** X3.  The focus-path effect fails in two ways only, both with no
    session open.  On an annotation path (keyed block segment,
    ['markDefs'], keyed third segment) whose block is found in the
    editor value: when the block has no [children] array, or when the
    popover lookup throws for the key of the first span with the mark.
    On a path that takes the block branch and is long enough to open a
    block or inline object: when the popover lookup throws for the key
    of the object, the first segment or, for a child, the third. *)
Theorem focus_path_effect_throws_iff (p : Props) (s : State) :
  (exists error, focusPathEffect p s = Threw error) <->
  objectEditData s = None /\
  exists fp,
    focusPath p = Some fp /\
    ((exists blockKey markKey rest blk,
        fp = KeyedSeg blockKey :: PropSeg "markDefs" :: KeyedSeg markKey :: rest
        /\ blockWithKey (default [] (editorValue p)) blockKey = Some blk
        /\ (blk_children blk = None
            \/ exists children span,
                 blk_children blk = Some children
                 /\ spanWithMark children markKey = Some span
                 /\ querySelectorThrows p (child_key span) = true))
     \/ ((isMarkdef fp = false \/ forall blockKey, fp !! 0 <> Some (KeyedSeg blockKey))
         /\ exists lastSegment,
              (isChild fp = true /\ 3 < length fp /\ fp !! 2 = Some lastSegment
               \/ isChild fp = false /\ 1 < length fp /\ fp !! 0 = Some lastSegment)
              /\ querySelectorThrows p (key_attribute (seg_key lastSegment)) = true)).
Proof.
  assert (forall fp error, openBlockOrInline p fp s = Threw error ->
            exists lastSegment,
              (isChild fp = true /\ 3 < length fp /\ fp !! 2 = Some lastSegment
               \/ isChild fp = false /\ 1 < length fp /\ fp !! 0 = Some lastSegment)
              /\ querySelectorThrows p (key_attribute (seg_key lastSegment)) = true)
    as Hblock.
  { intros fp error Hthrow.
    destruct (openBlockOrInline_outcome p fp s)
      as [[_ Hrun] | (path & k & l & Hshape & Hlast & Hrun)]; [congruence|].
    rewrite Hrun in Hthrow.
    destruct (querySelectorThrows p _) eqn:Hq; [|discriminate].
    exists l. split; [|done].
    destruct Hshape as [(Hc & Hlen & _) | (Hc & Hlen & _)]; rewrite Hc in Hlast;
      [by left | by right]. }
  assert (forall fp lastSegment,
            (isChild fp = true /\ 3 < length fp /\ fp !! 2 = Some lastSegment
             \/ isChild fp = false /\ 1 < length fp /\ fp !! 0 = Some lastSegment) ->
            querySelectorThrows p (key_attribute (seg_key lastSegment)) = true ->
            openBlockOrInline p fp s = Threw "SyntaxError: not a valid selector")
    as Hblock'.
  { intros fp lastSegment Hshape Hq.
    destruct (openBlockOrInline_outcome p fp s)
      as [[Hshort _] | (path & k & l & Hshape' & Hlast & Hrun)].
    - destruct Hshape as [(Hc & Hlen & _) | (Hc & Hlen & _)];
        destruct Hshort as [[Hc' Hlen'] | [Hc' Hlen']]; (congruence || lia).
    - rewrite Hrun.
      assert (l = lastSegment) as ->.
      { destruct Hshape as [(Hc & _ & Hl) | (Hc & _ & Hl)]; rewrite Hc in Hlast;
          congruence. }
      by rewrite Hq. }
  split.
  - intros [error Hthrow].
    destruct (focusPath p) as [fp|] eqn:Hfp;
      [|unfold focusPathEffect in Hthrow; rewrite Hfp in Hthrow; discriminate].
    destruct (objectEditData s) eqn:Hdata;
      [unfold focusPathEffect in Hthrow; rewrite Hfp, Hdata in Hthrow; discriminate|].
    split; [done|]. exists fp. split; [done|].
    rewrite (focusPathEffect_branch p s fp Hfp Hdata) in Hthrow.
    destruct (fp !! 0) as [blockSegment|] eqn:H0.
    2:{ right. split; [by right|].
        destruct (Hblock fp error Hthrow) as (l & Hshape & Hq).
        exists l. split; [by rewrite H0 in Hshape | done]. }
    destruct blockSegment as [name | index | blockKey | from to];
      try (right; split; [right; congruence|];
           destruct (Hblock fp error Hthrow) as (l & Hshape & Hq);
           exists l; split; [by rewrite H0 in Hshape | done]).
    destruct (isMarkdef fp) eqn:Hmd.
    2:{ right. split; [by left|].
        destruct (Hblock fp error Hthrow) as (l & Hshape & Hq).
        exists l. split; [by rewrite H0 in Hshape | done]. }
    left. rewrite openAnnotation_unfold in Hthrow.
    destruct (blockWithKey _ blockKey) as [blk|] eqn:Hblk; [|discriminate].
    destruct (fp !! 2) as [[name | index | markKey | from to]|] eqn:H2;
      try discriminate.
    unfold isMarkdef in Hmd. apply bool_decide_eq_true_1 in Hmd.
    destruct fp as [|a [|b [|c rest]]]; simpl in *; try discriminate.
    injection H0 as ->. injection Hmd as ->. injection H2 as ->.
    exists blockKey, markKey, rest, blk. split; [done|]. split; [done|].
    destruct (blk_children blk) as [children|]; [|by left].
    right. destruct (spanWithMark children markKey) as [span|] eqn:Hspan;
      [|discriminate].
    destruct (querySelectorThrows p (child_key span)) eqn:Hq; [|discriminate].
    by exists children, span.
  - intros (Hdata & fp & Hfp & Hcases).
    rewrite (focusPathEffect_branch p s fp Hfp Hdata).
    destruct Hcases as [(blockKey & markKey & rest & blk & -> & Hblk & Hch)
                       | [Hbranch (lastSegment & Hshape & Hq)]].
    + change (isMarkdef _) with true. simpl.
      rewrite openAnnotation_unfold, Hblk. simpl.
      destruct Hch as [Hch | (children & span & Hch & Hspan & Hq)].
      * rewrite Hch. by eexists.
      * rewrite Hch, Hspan, Hq. by eexists.
    + exists "SyntaxError: not a valid selector".
      pose proof (Hblock' fp lastSegment Hshape Hq) as Hthrow.
      destruct (fp !! 0) as [[name | index | blockKey | from to]|] eqn:H0;
        try exact Hthrow.
      destruct Hbranch as [-> | Hno]; [exact Hthrow|].
      by destruct (Hno blockKey).
Qed.

(** X4.  An annotation path that cannot be resolved is ignored: when
    the block key is not in the editor value, or the third segment is
    missing or not keyed, or no child of the block carries the mark,
    the effect changes nothing; such a path never opens a block object
    editor either, whatever its length. *)
Theorem unresolved_annotation_path_is_ignored
    (p : Props) (s : State) (blockKey : string) (rest : Path) :
  focusPath p = Some (KeyedSeg blockKey :: PropSeg "markDefs" :: rest) ->
  blockWithKey (default [] (editorValue p)) blockKey = None
  \/ (forall markKey, head rest <> Some (KeyedSeg markKey))
  \/ (exists blk children markKey,
        blockWithKey (default [] (editorValue p)) blockKey = Some blk
        /\ blk_children blk = Some children
        /\ head rest = Some (KeyedSeg markKey)
        /\ forall child, child ∈ children -> hasMark markKey child = false) ->
  focusPathEffect p s = Done tt s.
Proof.
  intros Hfp Hcases. unfold focusPathEffect. rewrite Hfp.
  destruct (objectEditData s); [done|].
  change (isMarkdef _) with true. simpl (_ !! 0). cbv beta iota.
  simpl (true && _). cbv beta iota.
  rewrite openAnnotation_unfold.
  replace ((KeyedSeg blockKey :: PropSeg "markDefs" :: rest) !! 2)
    with (head rest) by (by destruct rest).
  destruct Hcases as [Hnone | [Hthird | (blk & children & markKey & Hblk & Hch & Hhead & Hmarks)]].
  - by rewrite Hnone.
  - destruct (blockWithKey _ blockKey); [|done].
    destruct (head rest) as [[name | index | markKey | from to]|]; try done.
    by destruct (Hthird markKey).
  - rewrite Hblk, Hhead, Hch.
    destruct (spanWithMark children markKey) as [span|] eqn:Hspan; [|done].
    unfold spanWithMark in Hspan. apply find_some in Hspan as [Hin Hmark].
    apply list_elem_of_In in Hin. rewrite (Hmarks span Hin) in Hmark.
    discriminate.
Qed.

Lemma unresolved_annotation_path_is_ignored_witness :
  focusPathEffect
    (Examples.propsWithFocusPath [KeyedSeg "b1"; PropSeg "markDefs"; KeyedSeg "gone"; PropSeg "href"])
    initialState
  = Done tt initialState.
Proof.
  apply (unresolved_annotation_path_is_ignored _ initialState "b1"
           [KeyedSeg "gone"; PropSeg "href"]); [reflexivity|].
  right; right.
  exists Examples.linkBlock,
    [ {| child_type := "span"; child_key := "s1";
         child_text := Some "a link"; child_marks := Some ["m1"] |} ], "gone".
  repeat split.
  intros child Hin. apply list_elem_of_singleton in Hin. subst child.
  reflexivity.
Defined.

(** Paths that reach no further than a block or a child of a block:
    neither branch of the effect applies. *)
Lemma short_focus_path_no_transition (p : Props) (s : State) :
  focusPath p = None
  \/ (exists fp, focusPath p = Some fp /\ length fp <= 1)
  \/ (exists fp, focusPath p = Some fp /\ fp !! 1 = Some (PropSeg "children")
                 /\ length fp <= 3) ->
  focusPathEffect p s = Done tt s.
Proof.
  intros [Hnone | [(fp & Hfp & Hlen) | (fp & Hfp & Hchild & Hlen)]];
    unfold focusPathEffect.
  - by rewrite Hnone.
  - rewrite Hfp. destruct (objectEditData s); [done|].
    destruct fp as [|a [|b rest]]; simpl in Hlen; try lia.
    + reflexivity.
    + simpl. change (isMarkdef [a]) with false. simpl. reflexivity.
  - rewrite Hfp. destruct (objectEditData s); [done|].
    destruct fp as [|a [|b [|c [|d rest]]]]; simpl in Hlen, Hchild;
      try lia; try discriminate; injection Hchild as ->.
    + simpl. change (isMarkdef _) with false. simpl. reflexivity.
    + simpl. change (isMarkdef _) with false. simpl. reflexivity.
Qed.

(** X5.  Focus paths at the level of the text open nothing: with no
    focus path, with a path of at most one segment, or with a path
    into a child (second segment ['children']) of at most three
    segments, the effect changes neither the state nor the call log. *)
Theorem text_focus_path_opens_nothing (p : Props) (s : State) :
  focusPath p = None
  \/ (exists fp, focusPath p = Some fp /\ length fp <= 1)
  \/ (exists fp, focusPath p = Some fp /\ fp !! 1 = Some (PropSeg "children")
                 /\ length fp <= 3) ->
  focusPathEffect p s = Done tt s.
Proof. apply short_focus_path_no_transition. Qed.

Lemma text_focus_path_opens_nothing_witness :
  focusPathEffect
    (Examples.propsWithFocusPath [KeyedSeg "b1"; PropSeg "children"; KeyedSeg "s1"])
    initialState
  = Done tt initialState.
Proof.
  apply (text_focus_path_opens_nothing _ initialState).
  right; right. eexists. split; [reflexivity|]. split; [reflexivity | simpl; lia].
Defined.

(** What the focus-path effect can do: nothing, fail, open an
    annotation session at once, or queue the opening of a block or
    inline object. *)
Lemma focusPathEffect_outcome (p : Props) (s : State) :
  focusPathEffect p s = Done tt s
  \/ (exists error, focusPathEffect p s = Threw error)
  \/ (exists fp blockKey spanKey,
        focusPath p = Some fp /\ objectEditData s = None
        /\ fp !! 0 = Some (KeyedSeg blockKey) /\ isMarkdef fp = true
        /\ focusPathEffect p s =
             Done tt {| isActive := true;
                        objectEditData :=
                          Some {| editorPath :=
                                    [KeyedSeg blockKey; PropSeg "children"; KeyedSeg spanKey];
                                  formBuilderPath := take 3 fp;
                                  kind := annotation |};
                        initialSelection := initialSelection s;
                        popoverReferenceElement :=
                          if rendered p spanKey then Some spanKey
                          else popoverReferenceElement s;
                        timers := timers s;
                        calls := calls s ++
                          [PTE_select (collapsedAt
                             [KeyedSeg blockKey; PropSeg "children"; KeyedSeg spanKey])] |})
  \/ (exists fp path k lastSegment,
        focusPath p = Some fp /\ objectEditData s = None
        /\ (isChild fp = true /\ 3 < length fp /\ path = take 3 fp /\ k = inlineObject
            \/ isChild fp = false /\ 1 < length fp /\ path = take 1 fp /\ k = blockObject)
        /\ focusPathEffect p s =
             Done tt {| isActive := true;
                        objectEditData := None;
                        initialSelection := initialSelection s;
                        popoverReferenceElement :=
                          if rendered p (key_attribute (seg_key lastSegment))
                          then Some (key_attribute (seg_key lastSegment))
                          else popoverReferenceElement s;
                        timers := timers s ++
                          [ {| editorPath := path; formBuilderPath := path; kind := k |} ];
                        calls := calls s ++ [PTE_select (collapsedAt path)] |}).
Proof.
  unfold focusPathEffect.
  destruct (focusPath p) as [fp|] eqn:Hfp; [|by left].
  destruct (objectEditData s) eqn:Hdata; [by left|].
  assert (openBlockOrInline p fp s = Done tt s
          \/ (exists error : string, openBlockOrInline p fp s = Threw error)
          \/ exists path k lastSegment,
               (isChild fp = true /\ 3 < length fp /\ path = take 3 fp /\ k = inlineObject
                \/ isChild fp = false /\ 1 < length fp /\ path = take 1 fp /\ k = blockObject)
               /\ openBlockOrInline p fp s =
                    Done tt {| isActive := true;
                               objectEditData := None;
                               initialSelection := initialSelection s;
                               popoverReferenceElement :=
                                 if rendered p (key_attribute (seg_key lastSegment))
                                 then Some (key_attribute (seg_key lastSegment))
                                 else popoverReferenceElement s;
                               timers := timers s ++
                                 [ {| editorPath := path; formBuilderPath := path; kind := k |} ];
                               calls := calls s ++ [PTE_select (collapsedAt path)] |})
    as Hblock.
  { destruct (openBlockOrInline_outcome p fp s)
      as [[_ Hrun] | (path & k & l & Hshape & _ & Hrun)]; [by left|].
    right. destruct (querySelectorThrows p _); [left; by eexists|].
    right. exists path, k, l. rewrite Hdata in Hrun. done. }
  assert (openBlockOrInline p fp s = Done tt s
          \/ (exists error : string, openBlockOrInline p fp s = Threw error)
          \/ (exists (fp0 : Path) (blockKey spanKey : string),
                Some fp = Some fp0 /\ None = (None : option ObjectEditData)
                /\ fp0 !! 0 = Some (KeyedSeg blockKey) /\ isMarkdef fp0 = true
                /\ openBlockOrInline p fp s =
                     Done tt {| isActive := true;
                                objectEditData :=
                                  Some {| editorPath :=
                                            [KeyedSeg blockKey; PropSeg "children"; KeyedSeg spanKey];
                                          formBuilderPath := take 3 fp0;
                                          kind := annotation |};
                                initialSelection := initialSelection s;
                                popoverReferenceElement :=
                                  if rendered p spanKey then Some spanKey
                                  else popoverReferenceElement s;
                                timers := timers s;
                                calls := calls s ++
                                  [PTE_select (collapsedAt
                                     [KeyedSeg blockKey; PropSeg "children"; KeyedSeg spanKey])] |})
          \/ (exists (fp0 path : Path) (k : ObjectKind) (lastSegment : PathSegment),
                Some fp = Some fp0 /\ None = (None : option ObjectEditData)
                /\ (isChild fp0 = true /\ 3 < length fp0 /\ path = take 3 fp0 /\ k = inlineObject
                    \/ isChild fp0 = false /\ 1 < length fp0 /\ path = take 1 fp0 /\ k = blockObject)
                /\ openBlockOrInline p fp s =
                     Done tt {| isActive := true;
                                objectEditData := None;
                                initialSelection := initialSelection s;
                                popoverReferenceElement :=
                                  if rendered p (key_attribute (seg_key lastSegment))
                                  then Some (key_attribute (seg_key lastSegment))
                                  else popoverReferenceElement s;
                                timers := timers s ++
                                  [ {| editorPath := path; formBuilderPath := path; kind := k |} ];
                                calls := calls s ++ [PTE_select (collapsedAt path)] |}))
    as Hblock'.
  { destruct Hblock as [Hrun | [Hthrow | (path & k & l & Hshape & Hrun)]];
      [by left | right; by left |].
    right; right; right. by exists fp, path, k, l. }
  destruct (fp !! 0) as [blockSegment|] eqn:H0; [|exact Hblock'].
  destruct (isMarkdef fp) eqn:Hmd; simpl; [|exact Hblock'].
  destruct blockSegment as [name | index | blockKey | from to]; simpl;
    try exact Hblock'.
  rewrite openAnnotation_unfold.
  destruct (blockWithKey _ blockKey) as [blk|]; [|by left].
  destruct (fp !! 2) as [[name | index | markKey | from to]|]; try by left.
  destruct (blk_children blk) as [children|]; [|right; left; by eexists].
  destruct (spanWithMark children markKey) as [span|]; [|by left].
  destruct (querySelectorThrows p (child_key span)); [right; left; by eexists|].
  right; right; left. by exists fp, blockKey, (child_key span).
Qed.

(** X1.  Whatever session the focus-path effect opens, at once or at
    the tick, the engine was told to select the collapsed selection at
    the session's [editorPath], the component is active, and the kind
    follows the shape of the focus path: [annotation] for a
    ['markDefs'] path, with the span path as [editorPath] and the
    first three segments of the focus path as [formBuilderPath];
    [inlineObject] for a ['children'] path of more than three
    segments, with its first three segments as both paths;
    [blockObject] otherwise, with the first segment as both paths. *)
Theorem opened_session_invariant
    (p : Props) (s s1 s2 : State) (fp : Path) (data : ObjectEditData) :
  objectEditData s = None ->
  timers s = [] ->
  focusPath p = Some fp ->
  focusPathEffect p s = Done tt s1 ->
  tick s1 = Done tt s2 ->
  objectEditData s2 = Some data ->
  calls s2 = calls s ++ [PTE_select (collapsedAt (editorPath data))] /\
  isActive s2 = true /\
  timers s2 = [] /\
  match kind data with
  | annotation =>
      isMarkdef fp = true /\ formBuilderPath data = take 3 fp /\
      exists blockSegment spanKey,
        fp !! 0 = Some blockSegment /\
        editorPath data = [blockSegment; PropSeg "children"; KeyedSeg spanKey]
  | inlineObject =>
      isChild fp = true /\ 3 < length fp /\
      editorPath data = take 3 fp /\ formBuilderPath data = take 3 fp
  | blockObject =>
      isChild fp = false /\ 1 < length fp /\
      editorPath data = take 1 fp /\ formBuilderPath data = take 1 fp
  end.
Proof.
  intros Hnone Htimers Hfp Hrun Htick Hdata.
  destruct (focusPathEffect_outcome p s)
    as [Hsame | [[error Hthrow]
       | [(fp' & blockKey & spanKey & Hfp' & _ & H0 & Hmd & Hopen)
         | (fp' & path & k & l & Hfp' & _ & Hshape & Hopen)]]].
  - rewrite Hsame in Hrun. injection Hrun as <-.
    unfold tick in Htick. injection Htick as <-. simpl in Hdata.
    rewrite Htimers, Hnone in Hdata. discriminate.
  - congruence.
  - rewrite Hfp in Hfp'. injection Hfp' as <-.
    rewrite Hopen in Hrun. injection Hrun as <-.
    unfold tick in Htick. injection Htick as <-. simpl in Hdata.
    rewrite Htimers in Hdata. simpl in Hdata. injection Hdata as <-.
    simpl. repeat split; try done. by exists (KeyedSeg blockKey), spanKey.
  - rewrite Hfp in Hfp'. injection Hfp' as <-.
    rewrite Hopen in Hrun. injection Hrun as <-.
    unfold tick in Htick. injection Htick as <-. simpl in Hdata.
    rewrite Htimers in Hdata. simpl in Hdata. injection Hdata as <-.
    simpl.
    destruct Hshape as [(Hc & Hlen & -> & ->) | (Hc & Hlen & -> & ->)];
      repeat split; done.
Qed.

Lemma opened_session_invariant_witness :
  exists s1 s2,
    focusPathEffect
      (Examples.propsWithFocusPath
         [KeyedSeg "b1"; PropSeg "children"; KeyedSeg "i1"; PropSeg "title"])
      initialState = Done tt s1 /\
    tick s1 = Done tt s2 /\
    calls s2 = [PTE_select (collapsedAt [KeyedSeg "b1"; PropSeg "children"; KeyedSeg "i1"])].
Proof.
  lazymatch eval lazy in
      (focusPathEffect
         (Examples.propsWithFocusPath
            [KeyedSeg "b1"; PropSeg "children"; KeyedSeg "i1"; PropSeg "title"])
         initialState) with
  | Done _ ?s1 =>
      lazymatch eval lazy in (tick s1) with
      | Done _ ?s2 =>
          exists s1, s2;
          destruct (opened_session_invariant
                      (Examples.propsWithFocusPath
                         [KeyedSeg "b1"; PropSeg "children"; KeyedSeg "i1"; PropSeg "title"])
                      initialState s1 s2
                      [KeyedSeg "b1"; PropSeg "children"; KeyedSeg "i1"; PropSeg "title"]
                      {| editorPath := [KeyedSeg "b1"; PropSeg "children"; KeyedSeg "i1"];
                         formBuilderPath := [KeyedSeg "b1"; PropSeg "children"; KeyedSeg "i1"];
                         kind := inlineObject |})
            as (Hcalls & _); [reflexivity .. |];
          split; [reflexivity | split; [reflexivity | exact Hcalls]]
      end
  end.
Defined.

(** X2.  Closing does not reopen: the close action reports the
    session's [editorPath] as the new focus path, and for every session
    that the focus-path effect has opened, that focus path, received
    with no session open, changes nothing. *)
Theorem closed_session_is_not_reopened
    (p : Props) (s s1 s2 : State) (fp : Path) (data : ObjectEditData) :
  objectEditData s = None ->
  timers s = [] ->
  focusPath p = Some fp ->
  focusPathEffect p s = Done tt s1 ->
  tick s1 = Done tt s2 ->
  objectEditData s2 = Some data ->
  forall s', focusPathEffect (withFocusPath p (Some (editorPath data))) s' = Done tt s'.
Proof.
  intros Hnone Htimers Hfp Hrun Htick Hdata s'.
  apply short_focus_path_no_transition. right.
  destruct (focusPathEffect_outcome p s)
    as [Hsame | [[error Hthrow]
       | [(fp' & blockKey & spanKey & Hfp' & _ & H0 & Hmd & Hopen)
         | (fp' & path & k & l & Hfp' & _ & Hshape & Hopen)]]].
  - rewrite Hsame in Hrun. injection Hrun as <-.
    unfold tick in Htick. injection Htick as <-. simpl in Hdata.
    rewrite Htimers, Hnone in Hdata. discriminate.
  - congruence.
  - rewrite Hopen in Hrun. injection Hrun as <-.
    unfold tick in Htick. injection Htick as <-. simpl in Hdata.
    rewrite Htimers in Hdata. simpl in Hdata. injection Hdata as <-.
    right. eexists. split; [reflexivity|]. simpl. split; [done | lia].
  - rewrite Hfp in Hfp'. injection Hfp' as <-.
    rewrite Hopen in Hrun. injection Hrun as <-.
    unfold tick in Htick. injection Htick as <-. simpl in Hdata.
    rewrite Htimers in Hdata. simpl in Hdata. injection Hdata as <-.
    simpl.
    destruct Hshape as [(Hc & Hlen & -> & ->) | (Hc & Hlen & -> & ->)].
    + right. eexists. split; [reflexivity|].
      unfold isChild in Hc. apply bool_decide_eq_true_1 in Hc.
      destruct fp as [|a [|b [|c rest]]]; simpl in *; try lia.
      split; [done | lia].
    + left. eexists. split; [reflexivity|].
      destruct fp as [|a rest]; simpl in *; lia.
Qed.

Lemma closed_session_is_not_reopened_witness :
  focusPathEffect
    (withFocusPath (Examples.propsWithFocusPath [KeyedSeg "b2"; PropSeg "caption"])
                   (Some [KeyedSeg "b2"]))
    initialState
  = Done tt initialState.
Proof.
  eapply (closed_session_is_not_reopened
            (Examples.propsWithFocusPath [KeyedSeg "b2"; PropSeg "caption"])
            initialState _ _ [KeyedSeg "b2"; PropSeg "caption"] Examples.imageSession);
    lazy; reflexivity.
Defined.

(** X6.  The deferred opening is not cancelled by what happens before
    the tick: when a focus change has queued the opening of a block or
    inline object and a second focus change, handled before the tick,
    opens an annotation session at once, the tick replaces that session
    by the queued one. *)
Theorem deferred_open_overrides_newer_session
    (p p' : Props) (s s1 s2 s3 : State) (queued newer : ObjectEditData) :
  objectEditData s = None ->
  timers s = [] ->
  focusPathEffect p s = Done tt s1 ->
  timers s1 = [queued] ->
  focusPathEffect p' s1 = Done tt s2 ->
  objectEditData s2 = Some newer ->
  tick s2 = Done tt s3 ->
  kind newer = annotation /\ objectEditData s3 = Some queued /\ timers s3 = [].
Proof.
  intros Hnone Htimers Hrun Hqueued Hrun' Hnewer Htick.
  assert (objectEditData s1 = None) as Hnone1.
  { destruct (focusPathEffect_outcome p s)
      as [Hsame | [[error Hthrow]
         | [(fp & blockKey & spanKey & _ & _ & _ & _ & Hopen)
           | (fp & path & k & l & _ & _ & _ & Hopen)]]].
    - congruence.
    - congruence.
    - rewrite Hopen in Hrun. injection Hrun as <-. simpl in Hqueued.
      rewrite Htimers in Hqueued. discriminate.
    - rewrite Hopen in Hrun. by injection Hrun as <-. }
  destruct (focusPathEffect_outcome p' s1)
    as [Hsame | [[error Hthrow]
       | [(fp & blockKey & spanKey & _ & _ & _ & _ & Hopen)
         | (fp & path & k & l & _ & _ & _ & Hopen)]]].
  - rewrite Hsame in Hrun'. injection Hrun' as <-. congruence.
  - congruence.
  - rewrite Hopen in Hrun'. injection Hrun' as <-.
    simpl in Hnewer. injection Hnewer as <-.
    unfold tick in Htick. injection Htick as <-. simpl.
    rewrite Hqueued. done.
  - rewrite Hopen in Hrun'. injection Hrun' as <-. discriminate Hnewer.
Qed.

Lemma deferred_open_overrides_newer_session_witness :
  exists s1 s2 s3,
    focusPathEffect (Examples.propsWithFocusPath [KeyedSeg "b2"; PropSeg "caption"])
                    initialState = Done tt s1 /\
    focusPathEffect (Examples.propsWithFocusPath Examples.annotationPath) s1
      = Done tt s2 /\
    tick s2 = Done tt s3 /\
    objectEditData s3 = Some Examples.imageSession.
Proof.
  lazymatch eval lazy in
      (focusPathEffect (Examples.propsWithFocusPath [KeyedSeg "b2"; PropSeg "caption"])
                       initialState) with
  | Done _ ?s1 =>
      lazymatch eval lazy in
          (focusPathEffect (Examples.propsWithFocusPath Examples.annotationPath) s1) with
      | Done _ ?s2 =>
          lazymatch eval lazy in (tick s2) with
          | Done _ ?s3 =>
              exists s1, s2, s3;
              destruct (deferred_open_overrides_newer_session
                          (Examples.propsWithFocusPath [KeyedSeg "b2"; PropSeg "caption"])
                          (Examples.propsWithFocusPath Examples.annotationPath)
                          initialState s1 s2 s3 Examples.imageSession
                          {| editorPath := [KeyedSeg "b1"; PropSeg "children"; KeyedSeg "s1"];
                             formBuilderPath := Examples.annotationPath;
                             kind := annotation |})
                as (_ & Hqueued & _); [reflexivity .. |];
              split; [reflexivity | split; [reflexivity | split; [reflexivity | exact Hqueued]]]
          end
      end
  end.
Defined.

(** X7.  A selection change is reported when none of the guards
    applies: for a collapsed selection, with no session open and a
    focus path that is neither a ['markDefs'] path nor the focus path
    of the selection, exactly one external focus event goes out, with
    the selection's focus path, and the state is otherwise left as it
    is. *)
Theorem selection_change_emits_focus
    (p : Props) (s : State) (sel : EditorSelection) :
  selection p = Some sel ->
  objectEditData s = None ->
  (forall fp, focusPath p = Some fp -> fp !! 1 <> Some (PropSeg "markDefs")) ->
  point_path (sel_focus sel) = point_path (sel_anchor sel) ->
  point_offset (sel_focus sel) = point_offset (sel_anchor sel) ->
  focusPath p <> Some (point_path (sel_focus sel)) ->
  selectionEffect p s =
    Done tt {| isActive := isActive s; objectEditData := objectEditData s;
               initialSelection := initialSelection s;
               popoverReferenceElement := popoverReferenceElement s;
               timers := timers s;
               calls := calls s ++ [onFocus (point_path (sel_focus sel))] |}.
Proof.
  intros Hsel Hnone Hmd Hpath Hoff Hdiff.
  unfold selectionEffect. rewrite Hsel, Hnone.
  assert (match focusPath p with Some fp => isMarkdef fp | None => false end = false)
    as ->.
  { destruct (focusPath p) as [fp|] eqn:Hfp; [|done].
    unfold isMarkdef. apply bool_decide_eq_false_2. by apply Hmd. }
  simpl. unfold isCollapsed.
  rewrite (bool_decide_eq_true_2 _ Hpath), (bool_decide_eq_true_2 _ Hoff).
  rewrite (bool_decide_eq_false_2 _ Hdiff). simpl. unfold call. by rewrite Hnone.
Qed.

Lemma selection_change_emits_focus_witness :
  selectionEffect
    {| focusPath := Some [KeyedSeg "b1"];
       hasFocus := true; editorValue := Some Examples.document;
       selection := Some (collapsedAt [KeyedSeg "b1"; PropSeg "children"; KeyedSeg "s1"]);
       editorSelection := None; rendered := fun _ => true;
       invalidSelector := fun _ => true |}
    initialState
  = Done tt {| isActive := false; objectEditData := None; initialSelection := None;
               popoverReferenceElement := None; timers := [];
               calls := [onFocus [KeyedSeg "b1"; PropSeg "children"; KeyedSeg "s1"]] |}.
Proof.
  apply (selection_change_emits_focus _ initialState
           (collapsedAt [KeyedSeg "b1"; PropSeg "children"; KeyedSeg "s1"]));
    try reflexivity.
  - intros fp [= <-]. discriminate.
  - discriminate.
Defined.

(** X8.  Sessions are opened and closed by the focus-path effect, the
    tick and the close action only: every other effect or handler of
    the component runs without failing and leaves [objectEditData] and
    the queued openings as they are. *)
Theorem only_open_and_close_touch_session (p : Props) (a : Action) (s : State) :
  opensOrCloses a = false ->
  exists s', perform p a s = Done tt s' /\
             objectEditData s' = objectEditData s /\
             timers s' = timers s.
Proof.
  intros Ha. destruct a; try discriminate Ha; simpl.
  - unfold hasFocusEffect. destruct (hasFocus p); by eexists.
  - unfold selectionEffect.
    destruct (selection p); [|by eexists].
    destruct (objectEditData s) eqn:Hdata; [by eexists|].
    destruct (negb _); [|by eexists].
    destruct (_ && _); eexists; (split; [reflexivity|]); simpl; by rewrite ?Hdata.
  - by eexists.
  - by eexists.
  - by eexists.
  - by eexists.
  - unfold handleFormBuilderEditObjectChange, mbind, M_bind, bind.
    rewrite forEach_call_patches. by eexists.
  - unfold handleEditObjectFormBuilderFocus.
    destruct (objectEditData s) eqn:Hdata; [|by eexists].
    destruct nextPath; eexists; (split; [reflexivity|]); simpl; by rewrite ?Hdata.
  - by eexists.
Qed.

Lemma only_open_and_close_touch_session_witness :
  exists s', perform (Examples.propsWithFocusPath Examples.annotationPath)
               ToggleFullscreen Examples.imageOpen = Done tt s' /\
             objectEditData s' = Some Examples.imageSession /\
             timers s' = [].
Proof.
  apply (only_open_and_close_touch_session
           (Examples.propsWithFocusPath Examples.annotationPath)
           ToggleFullscreen Examples.imageOpen).
  reflexivity.
Defined.

(** No action resets the activation or the popover anchor. *)
Lemma perform_keeps_activation (p : Props) (a : Action) (s s' : State) :
  perform p a s = Done tt s' ->
  (isActive s = true -> isActive s' = true) /\
  (is_Some (popoverReferenceElement s) -> is_Some (popoverReferenceElement s')).
Proof.
  assert (forall (t : State) (k : string), is_Some (popoverReferenceElement t) ->
            is_Some (if rendered p k then Some k else popoverReferenceElement t))
    as Hanchor.
  { intros t k Hset. destruct (rendered p k); [by eexists | done]. }
  destruct a; simpl; intros Hrun.
  - destruct (focusPathEffect_outcome p s)
      as [Hsame | [[error Hthrow]
         | [(fp & blockKey & spanKey & _ & _ & _ & _ & Hopen)
           | (fp & path & k & l & _ & _ & _ & Hopen)]]].
    + rewrite Hsame in Hrun. by injection Hrun as <-.
    + congruence.
    + rewrite Hopen in Hrun. injection Hrun as <-. simpl.
      split; [done | apply Hanchor].
    + rewrite Hopen in Hrun. injection Hrun as <-. simpl.
      split; [done | apply Hanchor].
  - unfold hasFocusEffect in Hrun.
    destruct (hasFocus p); injection Hrun as <-; done.
  - unfold selectionEffect in Hrun.
    destruct (selection p); [|by injection Hrun as <-].
    destruct (objectEditData s); [by injection Hrun as <-|].
    destruct (negb _); [|by injection Hrun as <-].
    destruct (_ && _); injection Hrun as <-; done.
  - injection Hrun as <-. done.
  - injection Hrun as <-. done.
  - injection Hrun as <-. done.
  - injection Hrun as <-. done.
  - injection Hrun as <-. done.
  - unfold handleFormBuilderEditObjectChange, mbind, M_bind, bind in Hrun.
    rewrite forEach_call_patches in Hrun. injection Hrun as <-. done.
  - unfold handleEditObjectFormBuilderFocus in Hrun.
    destruct (objectEditData s); [|by injection Hrun as <-].
    destruct nextPath; injection Hrun as <-; done.
  - injection Hrun as <-. done.
  - unfold renderEditObject in Hrun.
    destruct (objectEditData s); injection Hrun as <-; done.
Qed.

(** X9.  Nothing in the component deactivates it or clears the popover
    anchor: whatever effect or handler runs, an active component stays
    active, and a popover reference element, once set, stays set. *)
Theorem activation_is_never_revoked (p : Props) (a : Action) (s s' : State) :
  perform p a s = Done tt s' ->
  (isActive s = true -> isActive s' = true) /\
  (is_Some (popoverReferenceElement s) -> is_Some (popoverReferenceElement s')).
Proof. apply perform_keeps_activation. Qed.

Lemma activation_is_never_revoked_witness :
  isActive {| isActive := true; objectEditData := None; initialSelection := None;
              popoverReferenceElement := Some "b2"; timers := [];
              calls := [onFocus [KeyedSeg "b2"];
                        PTE_select (collapsedAt [KeyedSeg "b2"]); PTE_focus] |}
    = true.
Proof.
  apply (activation_is_never_revoked
           (Examples.propsWithFocusPath [KeyedSeg "b2"]) Close
           {| isActive := true; objectEditData := Some Examples.imageSession;
              initialSelection := None; popoverReferenceElement := Some "b2";
              timers := []; calls := [] |}
           {| isActive := true; objectEditData := None;
              initialSelection := Some (collapsedAt [KeyedSeg "b2"]);
              popoverReferenceElement := Some "b2"; timers := [];
              calls := [onFocus [KeyedSeg "b2"];
                        PTE_select (collapsedAt [KeyedSeg "b2"]); PTE_focus] |});
    reflexivity.
Defined.

(** X10.  Focus events of the nested form are forwarded only while a
    session is open: with a session and a path, exactly one external
    focus event goes out with that path; without a session, or without
    a path, nothing happens; and in the state that the close action
    leaves, no focus event of the nested form is forwarded any more. *)
Theorem nested_focus_forwarded_only_while_open
    (s : State) (nextPath : option Path) :
  (forall data path,
     objectEditData s = Some data ->
     handleEditObjectFormBuilderFocus (Some path) s =
       Done tt {| isActive := isActive s; objectEditData := objectEditData s;
                  initialSelection := initialSelection s;
                  popoverReferenceElement := popoverReferenceElement s;
                  timers := timers s; calls := calls s ++ [onFocus path] |}) /\
  (objectEditData s = None \/ nextPath = None ->
   handleEditObjectFormBuilderFocus nextPath s = Done tt s) /\
  (forall data s0 s',
     handleClose data s0 = Done tt s' ->
     handleEditObjectFormBuilderFocus nextPath s' = Done tt s').
Proof.
  unfold handleEditObjectFormBuilderFocus. repeat split.
  - intros data path Hopen. rewrite Hopen. unfold call. by rewrite Hopen.
  - intros [Hnone | ->]; [by rewrite Hnone | by destruct (objectEditData s)].
  - intros data s0 s' Hclose. injection Hclose as <-. done.
Qed.

(** X11.  Change proxies compose: forwarding an event through the
    proxy of an object at [outer ++ inner] is the same as prefixing it
    with [inner] first and forwarding the result through the proxy at
    [outer]; at the empty path the event is forwarded as it is; and
    the patch stream receives as many patches as the event holds,
    before the single [onChange]. *)
Theorem change_proxy_composes
    (patchEvent : PatchEvent) (outer inner : Path) (s : State) :
  handleFormBuilderEditObjectChange patchEvent (outer ++ inner) s =
    handleFormBuilderEditObjectChange
      (foldl (fun event segment => prefixAll segment event) patchEvent (reverse inner))
      outer s /\
  handleFormBuilderEditObjectChange patchEvent [] s =
    Done tt {| isActive := isActive s; objectEditData := objectEditData s;
               initialSelection := initialSelection s;
               popoverReferenceElement := popoverReferenceElement s;
               timers := timers s;
               calls := calls s ++ (patche_next <$> patches patchEvent)
                                ++ [onChange patchEvent] |} /\
  exists forwarded,
    handleFormBuilderEditObjectChange patchEvent (outer ++ inner) s =
      Done tt {| isActive := isActive s; objectEditData := objectEditData s;
                 initialSelection := initialSelection s;
                 popoverReferenceElement := popoverReferenceElement s;
                 timers := timers s;
                 calls := calls s ++ (patche_next <$> patches forwarded)
                                  ++ [onChange forwarded] |} /\
    length (patches forwarded) = length (patches patchEvent) /\
    Forall2 (fun local absolute =>
               patch_path absolute = outer ++ inner ++ patch_path local
               /\ patch_type absolute = patch_type local
               /\ patch_value absolute = patch_value local)
            (patches patchEvent) (patches forwarded).
Proof.
  assert (forall ev path,
            handleFormBuilderEditObjectChange ev path s =
              Done tt {| isActive := isActive s; objectEditData := objectEditData s;
                         initialSelection := initialSelection s;
                         popoverReferenceElement := popoverReferenceElement s;
                         timers := timers s;
                         calls := calls s
                           ++ (patche_next <$> patches
                                 (foldl (fun event segment => prefixAll segment event)
                                        ev (reverse path)))
                           ++ [onChange (foldl (fun event segment => prefixAll segment event)
                                               ev (reverse path))] |}) as Hrun.
  { intros ev path. unfold handleFormBuilderEditObjectChange, mbind, M_bind, bind.
    rewrite forEach_call_patches. unfold call. simpl. by rewrite <- app_assoc. }
  split; [|split].
  - rewrite !Hrun. by rewrite reverse_app, foldl_app.
  - rewrite Hrun. done.
  - eexists. split; [apply Hrun|].
    rewrite prefixAll_reverse. simpl. split; [by rewrite length_fmap|].
    apply Forall2_fmap_r, Forall_Forall2_diag, Forall_forall.
    intros patch _. simpl. by rewrite <- app_assoc.
Qed.

(** X22.  The editor is read-only by inactivity until the component is
    first activated, and never again: it is activated when the surface
    reports focus and when the activation overlay is used, and once it
    is active, however the component runs on, the editor gets the
    [readOnly] prop as it is. *)
Theorem editor_editable_once_activated
    (steps : list (Props * Action)) (s s' : State) (readOnly : option bool) :
  isActive s = true ->
  runActions steps s = Done tt s' ->
  isActive s' = true /\
  editorReadOnly s' readOnly = readOnly /\
  (forall s0, isActive s0 = false -> editorReadOnly s0 readOnly = Some true) /\
  (forall p s0 s1, hasFocus p = true -> perform p HasFocusChanged s0 = Done tt s1 ->
                   isActive s1 = true) /\
  (forall p s0 s1, perform p Activate s0 = Done tt s1 ->
                   isActive s1 = true /\ calls s1 = calls s0 ++ [PTE_focus]).
Proof.
  intros Hactive Hrun.
  assert (isActive s' = true) as Hactive'.
  { revert s Hactive Hrun. induction steps as [|[p a] steps IH]; intros s Hactive Hrun.
    - injection Hrun as <-. done.
    - simpl in Hrun. unfold mbind, M_bind, bind in Hrun.
      destruct (perform p a s) as [error | [] s1] eqn:Hstep; [discriminate|].
      apply (IH s1); [|done].
      by apply (perform_keeps_activation p a s s1). }
  split; [done|]. split; [|split; [|split]].
  - unfold editorReadOnly. by rewrite Hactive'.
  - intros s0 Hs0. unfold editorReadOnly. by rewrite Hs0.
  - intros p s0 s1 Hfocus Hstep. simpl in Hstep. unfold hasFocusEffect in Hstep.
    rewrite Hfocus in Hstep. by injection Hstep as <-.
  - intros p s0 s1 Hstep. injection Hstep as <-. done.
Qed.

Lemma editor_editable_once_activated_witness :
  exists s',
    runActions [(Examples.propsWithFocusPath [KeyedSeg "b2"; PropSeg "caption"], FocusPathChanged);
                (Examples.propsWithFocusPath [KeyedSeg "b2"; PropSeg "caption"], Tick);
                (Examples.propsWithFocusPath [KeyedSeg "b2"], Close)]
               {| isActive := true; objectEditData := None; initialSelection := None;
                  popoverReferenceElement := None; timers := []; calls := [] |}
      = Done tt s' /\
    editorReadOnly s' (Some false) = Some false.
Proof.
  lazymatch eval lazy in
      (runActions [(Examples.propsWithFocusPath [KeyedSeg "b2"; PropSeg "caption"], FocusPathChanged);
                   (Examples.propsWithFocusPath [KeyedSeg "b2"; PropSeg "caption"], Tick);
                   (Examples.propsWithFocusPath [KeyedSeg "b2"], Close)]
                  {| isActive := true; objectEditData := None; initialSelection := None;
                     popoverReferenceElement := None; timers := []; calls := [] |}) with
  | Done _ ?s' =>
      exists s';
      destruct (editor_editable_once_activated
                  [(Examples.propsWithFocusPath [KeyedSeg "b2"; PropSeg "caption"], FocusPathChanged);
                   (Examples.propsWithFocusPath [KeyedSeg "b2"; PropSeg "caption"], Tick);
                   (Examples.propsWithFocusPath [KeyedSeg "b2"], Close)]
                  {| isActive := true; objectEditData := None; initialSelection := None;
                     popoverReferenceElement := None; timers := []; calls := [] |}
                  s' (Some false))
        as (_ & Hro & _); [reflexivity | reflexivity |];
      split; [reflexivity | exact Hro]
  end.
Defined.

End OrchestratorMore.

(** * Further properties of the editable surface *)

Module EditableMore.
Import Editable Timeline EditableProofs.

(** X12.  The blocks handed to the value mapper are never an empty
    list: a non-empty array is passed on as it is, any other value is
    replaced by the initial value, and passing the result in again
    gives it back. *)
Theorem engine_value_never_empty
    (value : JsValue) (initialValue : list PortableTextBlock) :
  initialValue <> [] ->
  getValueOrInitialValue value initialValue <> [] /\
  (forall blocks, value = js_array blocks -> blocks <> [] ->
                  getValueOrInitialValue value initialValue = blocks) /\
  (isArray value = false -> getValueOrInitialValue value initialValue = initialValue) /\
  getValueOrInitialValue (js_array (getValueOrInitialValue value initialValue)) initialValue
    = getValueOrInitialValue value initialValue.
Proof.
  intros Hinit.
  assert (forall blocks, blocks <> [] ->
            getValueOrInitialValue (js_array blocks) initialValue = blocks) as Harray.
  { intros [|blk blocks] Hne; [done|]. reflexivity. }
  assert (getValueOrInitialValue value initialValue <> []) as Hne.
  { destruct value as [| | b | n | text | | [|blk blocks]]; done. }
  repeat split.
  - exact Hne.
  - intros blocks -> Hblocks. by apply Harray.
  - intros Hna. by destruct value.
  - by apply Harray.
Qed.

Lemma engine_value_never_empty_witness :
  getValueOrInitialValue (js_string "not an array") [Examples.examplePlaceHolder] <> [].
Proof.
  apply (engine_value_never_empty (js_string "not an array") [Examples.examplePlaceHolder]).
  discriminate.
Defined.

Section Engine.

Context {Node : Type}.
Variable isEqual : Node -> Node -> bool.
Variable toSlateValue : list PortableTextBlock -> list Node.
Variable thePlaceHolderBlock : PortableTextBlock.

(** X13.  After an update outside a composition the engine mirrors the
    Document: its children have the length of the mapped value and
    each is deeply equal to the mapped node at its index, whatever the
    children were before; and the engine is notified once. *)
Theorem value_update_mirrors_value (value : JsValue) (s : State (Node := Node)) :
  (forall n, isEqual n n = true) ->
  isComposing s = false ->
  let updated := valueEffect isEqual toSlateValue thePlaceHolderBlock value s in
  Forall2 (fun child n => isEqual n child = true)
          (children updated)
          (slateValueFromProps toSlateValue thePlaceHolderBlock value) /\
  calls updated = calls s ++ [slateEditor_onChange].
Proof.
  intros Hrefl Hcomp updated. subst updated. unfold valueEffect.
  rewrite Hcomp. simpl. split; [|done].
  destruct (truthy value).
  - rewrite reconcile_positionalUpdate. by apply positionalUpdate_equal.
  - apply Forall_Forall2_diag, Forall_forall. intros n _. apply Hrefl.
Qed.

Lemma positionalUpdate_single (existing new : list Node) (j : nat) (n e : Node) :
  length existing = length new ->
  new !! j = Some n ->
  existing !! j = Some e ->
  isEqual n e = false ->
  (forall i n' e', i <> j -> new !! i = Some n' -> existing !! i = Some e' ->
                   isEqual n' e' = true) ->
  positionalUpdate isEqual existing new = <[j:=n]> existing.
Proof.
  revert new j. induction existing as [|e0 existing IH];
    intros [|n0 new] j Hlen Hn He Hneq Hothers; try done.
  simpl in Hlen. destruct j as [|j]; simpl in *.
  - injection Hn as ->. injection He as ->. rewrite Hneq. f_equal.
    apply positionalUpdate_stable.
    apply Forall2_same_length_lookup_2; [lia|].
    intros i e' n' He' Hn'. by apply (Hothers (S i)).
  - rewrite (Hothers 0 n0 e0) by done. f_equal.
    apply IH; try done; [lia|].
    intros i n' e' Hij. apply (Hothers (S i)). lia.
Qed.

(** X14.  An edit of one block replaces one node: when the mapped
    value has as many nodes as the engine and differs deeply from its
    children at one index only, the update puts the new node at that
    index and leaves every other child the very node it was. *)
Theorem single_edit_replaces_one_node
    (value : JsValue) (s : State (Node := Node)) (j : nat) (n e : Node) :
  isComposing s = false ->
  truthy value = true ->
  let new := slateValueFromProps toSlateValue thePlaceHolderBlock value in
  length (children s) = length new ->
  new !! j = Some n ->
  children s !! j = Some e ->
  isEqual n e = false ->
  (forall i n' e', i <> j -> new !! i = Some n' -> children s !! i = Some e' ->
                   isEqual n' e' = true) ->
  children (valueEffect isEqual toSlateValue thePlaceHolderBlock value s)
    = <[j:=n]> (children s).
Proof.
  intros Hcomp Htruthy new Hlen Hn He Hneq Hothers.
  unfold valueEffect. rewrite Hcomp, Htruthy. simpl. fold new.
  rewrite reconcile_positionalUpdate.
  by apply (positionalUpdate_single _ _ j n e).
Qed.

(** X15.  A composition freezes the engine: from a state in which the
    composing flag is set, any run of Document updates, further
    before-input events and passing time that stays short of the
    moment the debounced reset is due leaves the children untouched
    and the flag set. *)
Theorem composition_window_freezes_children
    (es : list Event) (s : State (Node := Node)) (due : nat) :
  isComposing s = true ->
  unsetIsComposing_due s = Some due ->
  keepsComposing due es ->
  children (runEvents isEqual toSlateValue thePlaceHolderBlock es s) = children s /\
  isComposing (runEvents isEqual toSlateValue thePlaceHolderBlock es s) = true.
Proof.
  revert s due. induction es as [|e es IH]; intros s due Hcomp Hdue Hkeeps.
  - done.
  - unfold runEvents in *. simpl foldl.
    destruct e as [h now | value | now]; simpl in Hkeeps; simpl step.
    + destruct (IH (handleOnBeforeInput h now s) (now + 1000)) as [Hch Hc];
        try done.
    + unfold valueEffect. rewrite Hcomp. by apply (IH s due).
    + destruct Hkeeps as [Hnow Hkeeps].
      unfold timePasses. rewrite Hdue.
      rewrite bool_decide_eq_false_2 by lia. by apply (IH s due).
Qed.

(** X16.  A Document update that arrives during a composition is not
    lost.  It is ignored when it arrives; as long as less than 1000 ms
    have passed since the last before-input event nothing changes;
    and when the debounced reset fires, the value effect runs again
    with the Document of that render, after which the flag is cleared,
    the children are deeply equal to the mapped Document, and the
    engine has been notified once. *)
Theorem update_during_composition_applied_at_reset
    (hasOnBeforeInput : bool) (t now : nat) (value : JsValue)
    (s : State (Node := Node)) :
  (forall n, isEqual n n = true) ->
  let composing := handleOnBeforeInput hasOnBeforeInput t s in
  let ignored :=
    valueEffect isEqual toSlateValue thePlaceHolderBlock value composing in
  let after :=
    resetFires isEqual toSlateValue thePlaceHolderBlock value now ignored in
  ignored = composing /\
  (now < t + 1000 -> after = composing) /\
  (t + 1000 <= now ->
   isComposing after = false /\
   unsetIsComposing_due after = None /\
   Forall2 (fun child n => isEqual n child = true) (children after)
           (slateValueFromProps toSlateValue thePlaceHolderBlock value) /\
   calls after = calls composing ++ [slateEditor_onChange]).
Proof.
  intros Hrefl composing ignored after. subst after ignored composing.
  unfold resetFires, valueEffect at 2 3 4 5, timePasses, handleOnBeforeInput.
  simpl. split; [done|]. split; intros Hnow.
  - rewrite bool_decide_eq_false_2 by lia. done.
  - rewrite bool_decide_eq_true_2 by lia. simpl.
    unfold valueEffect. simpl. repeat split.
    destruct (truthy value).
    + rewrite reconcile_positionalUpdate. by apply positionalUpdate_equal.
    + apply Forall_Forall2_diag, Forall_forall. intros n _. apply Hrefl.
Qed.

End Engine.

Lemma value_update_mirrors_value_witness :
  Forall2 (fun child n => Examples.exampleIsEqual n child = true)
    (children (valueEffect Examples.exampleIsEqual Examples.exampleToSlateValue
                 Examples.examplePlaceHolder js_undefined (Examples.engineState false)))
    (slateValueFromProps Examples.exampleToSlateValue Examples.examplePlaceHolder
       js_undefined).
Proof.
  apply (value_update_mirrors_value Examples.exampleIsEqual
           Examples.exampleToSlateValue Examples.examplePlaceHolder
           js_undefined (Examples.engineState false)).
  - intros n. unfold Examples.exampleIsEqual. by apply bool_decide_eq_true_2.
  - reflexivity.
Defined.

Lemma single_edit_replaces_one_node_witness :
  children (valueEffect Examples.exampleIsEqual Examples.exampleToSlateValue
              Examples.examplePlaceHolder
              (js_array [Examples.linkBlock; Examples.imageBlock;
                         {| blk_type := "image"; blk_key := "b3"; blk_style := None;
                            blk_markDefs := None; blk_children := None |}])
              (Examples.engineState false))
    = [(7, "b1"); (0, "b2"); (9, "b3")].
Proof.
  apply (single_edit_replaces_one_node Examples.exampleIsEqual
           Examples.exampleToSlateValue Examples.examplePlaceHolder
           (js_array [Examples.linkBlock; Examples.imageBlock;
                      {| blk_type := "image"; blk_key := "b3"; blk_style := None;
                         blk_markDefs := None; blk_children := None |}])
           (Examples.engineState false) 1 (0, "b2") (8, "old"));
    try reflexivity.
  intros [|[|[|i]]] n' e' Hi Hn He; try done;
    simpl in Hn, He; injection Hn as <-; injection He as <-; reflexivity.
Defined.

Lemma update_during_composition_applied_at_reset_witness :
  children (resetFires Examples.exampleIsEqual Examples.exampleToSlateValue
              Examples.examplePlaceHolder (js_array [Examples.imageBlock]) 1600
              (valueEffect Examples.exampleIsEqual Examples.exampleToSlateValue
                 Examples.examplePlaceHolder (js_array [Examples.imageBlock])
                 (handleOnBeforeInput false 600 (Examples.engineState false))))
    = [(0, "b2")].
Proof.
  destruct (update_during_composition_applied_at_reset Examples.exampleIsEqual
              Examples.exampleToSlateValue Examples.examplePlaceHolder
              false 600 1600 (js_array [Examples.imageBlock])
              (Examples.engineState false))
    as (_ & _ & Hafter).
  - intros n. unfold Examples.exampleIsEqual. by apply bool_decide_eq_true_2.
  - destruct (Hafter ltac:(lia)) as (_ & _ & _ & _). reflexivity.
Defined.

Lemma composition_window_freezes_children_witness :
  children (runEvents Examples.exampleIsEqual Examples.exampleToSlateValue
              Examples.examplePlaceHolder
              [ValueProp (js_array [Examples.imageBlock]); TimePasses 999;
               BeforeInput false 600; TimePasses 1400; ValueProp js_undefined]
              (Examples.engineState true))
    = [(7, "b1"); (8, "old"); (9, "b3")].
Proof.
  apply (composition_window_freezes_children Examples.exampleIsEqual
           Examples.exampleToSlateValue Examples.examplePlaceHolder
           [ValueProp (js_array [Examples.imageBlock]); TimePasses 999;
            BeforeInput false 600; TimePasses 1400; ValueProp js_undefined]
           (Examples.engineState true) 1000);
    [reflexivity | reflexivity | simpl; lia].
Defined.

(** Case analysis on membership in an explicit list of moments. *)
Ltac scan H :=
  repeat (apply elem_of_cons in H as [H|H]; [try discriminate H|]);
  try (by apply not_elem_of_nil in H).
Ltac break :=
  repeat match goal with
         | H : _ \/ _ |- _ => destruct H as [H|H]
         | H : exists _, _ |- _ => destruct H as [? H]
         | H : _ /\ _ |- _ => destruct H as [? H]
         end.
Ltac found := solve [repeat first [apply list_elem_of_here | apply list_elem_of_further]].
Ltac absent := let H := fresh in intros H; scan H.
Ltac cases behaviour :=
  destruct behaviour as [? | [| ? | ? |] | [[| ? | ? |] | ?]];
  unfold settledResult, handlePaste; simpl.

Section Paste.

Context {Node : Type}.
Variable toSlateValue : list PortableTextBlock -> list Node.

(** X17.  A paste without a selection does nothing at all, not even
    call the handler.  With a selection, and whatever the handler does,
    the browser default is prevented and the clipboard data is inserted
    by default exactly once. *)
Theorem default_insertion_exactly_once (onPasteProp : option OnPasteBehaviour) :
  handlePaste toSlateValue false onPasteProp = [] /\
  length (List.filter isDefaultInsertion (handlePaste toSlateValue true onPasteProp)) = 1 /\
  (called event_preventDefault ∈ handlePaste toSlateValue true onPasteProp).
Proof.
  split; [done|].
  destruct onPasteProp as [behaviour|]; [|split; [done | found]].
  cases behaviour; (split; [reflexivity | found]).
Qed.

(** X18.  Whether the handler answers at once, throws, or answers
    later, the reactions are those to the way its result settles, and
    they all come after the call of the handler, the settling of the
    result, and the default insertion. *)
Theorem reactions_follow_default_insertion (behaviour : OnPasteBehaviour) :
  exists synchronous,
    handlePaste toSlateValue true (Some behaviour)
      = synchronous ++ (called <$> reactions toSlateValue (settledResult behaviour)) /\
    synchronous ≡ₚ [called onPaste; result_settled;
                    called event_preventDefault; called slateEditor_insertData].
Proof.
  destruct behaviour as [error | result | settlement].
  - eexists [_; _; _; _]. split; reflexivity.
  - eexists [_; _; _; _]. split; reflexivity.
  - exists [called onPaste; called event_preventDefault;
            called slateEditor_insertData; result_settled].
    split; [reflexivity|].
    change [called onPaste; called event_preventDefault;
            called slateEditor_insertData; result_settled]
      with ([called onPaste]
              ++ [called event_preventDefault; called slateEditor_insertData]
              ++ [result_settled : Moment (Node := Node)]).
    change [called onPaste; result_settled;
            called event_preventDefault; called slateEditor_insertData]
      with ([called onPaste]
              ++ [result_settled : Moment (Node := Node)]
              ++ [called event_preventDefault; called slateEditor_insertData]).
    apply Permutation_app_head, Permutation_app_comm.
Qed.

(** X19.  The fragment of the handler is inserted exactly when its
    result carries an [insert], and then in addition to the clipboard
    data, which has been inserted by default before. *)
Theorem handler_fragment_is_inserted_after_default (behaviour : OnPasteBehaviour) :
  ((exists fragment,
      called (slateEditor_insertFragment fragment)
        ∈ handlePaste toSlateValue true (Some behaviour))
   <-> exists insert, settledResult behaviour = fulfilled (result_insert insert)) /\
  (forall insert,
     settledResult behaviour = fulfilled (result_insert insert) ->
     exists before between after,
       handlePaste toSlateValue true (Some behaviour)
         = before ++ called slateEditor_insertData :: between
             ++ called (slateEditor_insertFragment (toSlateValue insert)) :: after).
Proof.
  split.
  - cases behaviour;
      (split; [intros [fragment H]; scan H; eauto
              | intros Hs; break; simplify_eq; eexists; found]).
  - intros insert Hs.
    destruct behaviour as [error | result | settlement];
      unfold settledResult in Hs; simpl in Hs.
    + discriminate.
    + injection Hs as ->.
      exists [called onPaste; result_settled; called event_preventDefault],
        [called (change_next_loading true); called event_preventDefault],
        [called (change_next_loading false)].
      reflexivity.
    + subst settlement.
      exists [called onPaste; called event_preventDefault],
        [result_settled; called (change_next_loading true); called event_preventDefault],
        [called (change_next_loading false)].
      reflexivity.
Qed.

(** X20.  The loading signal is reset exactly when the result carries
    an [insert] or is an error, or the promise is rejected.  It is left
    on, set and never reset, exactly when the handler's result is
    falsy or not understood; and it is reset without having been set
    exactly when the promise is rejected. *)
Theorem loading_signal_outcomes (behaviour : OnPasteBehaviour) :
  let timeline := handlePaste toSlateValue true (Some behaviour) in
  (called (change_next_loading false) ∈ timeline
   <-> (exists insert, settledResult behaviour = fulfilled (result_insert insert))
       \/ (exists error, settledResult behaviour = fulfilled (result_error error))
       \/ (exists error, settledResult behaviour = rejected error)) /\
  (called (change_next_loading true) ∈ timeline
   /\ called (change_next_loading false) ∉ timeline
   <-> settledResult behaviour = fulfilled result_falsy
       \/ settledResult behaviour = fulfilled result_unexpected) /\
  (called (change_next_loading false) ∈ timeline
   /\ called (change_next_loading true) ∉ timeline
   <-> exists error, settledResult behaviour = rejected error).
Proof.
  intros timeline. subst timeline. split; [|split].
  - cases behaviour;
      (split; [intros H; scan H; eauto
              | intros Hs; break; simplify_eq; found]).
  - cases behaviour;
      (split; [intros [Hin Hnot];
               first [solve [scan Hin] | solve [exfalso; apply Hnot; found] | eauto]
              | intros Hs; break; simplify_eq; (split; [found | absent])]).
  - cases behaviour;
      (split; [intros [Hin Hnot];
               first [solve [scan Hin] | solve [exfalso; apply Hnot; found] | eauto]
              | intros Hs; break; simplify_eq; (split; [found | absent])]).
Qed.

(** X21.  An error reaches the console exactly when it is the error
    that the handler threw or returned, or the reason its promise was
    rejected with; a warning is given exactly for a result that is not
    understood.  No other outcome logs anything. *)
Theorem error_is_logged_iff (behaviour : OnPasteBehaviour) (error : string) :
  let timeline := handlePaste toSlateValue true (Some behaviour) in
  (called (console_error error) ∈ timeline
   <-> settledResult behaviour = fulfilled (result_error error)
       \/ settledResult behaviour = rejected error) /\
  (called console_warn ∈ timeline
   <-> settledResult behaviour = fulfilled result_unexpected).
Proof.
  intros timeline. subst timeline. split.
  - cases behaviour;
      (split; [intros H; scan H; simplify_eq; eauto
              | intros Hs; break; simplify_eq; found]).
  - cases behaviour;
      (split; [intros H; scan H; eauto
              | intros Hs; simplify_eq; found]).
Qed.

End Paste.

End EditableMore.
